(** * Definition Studio: categories, item definitions and the format string

    A shallow embedding of the logic of
    [src/通用状态栏框架/components/manager/modules/DefinitionStudio.vue]
    (the [<script setup>] block) over the types of
    [src/通用状态栏框架/types/data.ts].

    Conventions.
    - A JavaScript string is a Rocq [string] holding the UTF-8 encoding of
      the text; concatenation, emptiness and equality are those of the
      encoded text.
    - [Record<string, T>] used as a dictionary is a [gmap string T] that
      holds the own properties of the object.  A write [o[k] = v] is
      [assign]: it creates or replaces the own property [k], except that
      at the key [__proto__] an object with no own property of that name
      gets [v] as its prototype and no entry.  The prototype of a registry
      is not part of the state: a read [o[k]] is the lookup of the own
      property [k], and what a registry inherits (the members of
      [Object.prototype], or a prototype installed as above) is not an
      entry.
    - An optional field [f?: T] is an [option T]; [None] is [undefined].
    - The component's refs and reactive forms are the fields of one
      [State] record; the save and delete functions are functions
      [State -> State], the computed [generatedFormat] is a function of the
      two parts of the state it reads, and the parts operations are
      functions on the array [itemForm.parts].
    - Objects are values: [{ ...x }] is [x]. *)

From Stdlib Require Import ZArith Ascii String List Bool.
From stdpp Require Import base option list gmap strings.

Local Open Scope string_scope.

(** ** JavaScript string primitives *)

Module Js.

(** Truthiness of a string: only the empty string is falsy. *)
Definition truthy (s : string) : bool :=
  match s with
  | EmptyString => false
  | String _ _ => true
  end.

(** [a || b] on strings. *)
Definition or_else (a b : string) : string :=
  if truthy a then a else b.

(** [a || b] where [a] may be [undefined]. *)
Definition opt_or_else (a : option string) (b : string) : string :=
  match a with
  | Some s => or_else s b
  | None => b
  end.

(** [Array.prototype.join] on an array of strings. *)
Definition join (sep : string) (l : list string) : string :=
  String.concat sep l.

(** *** [String.prototype.trim]

    ECMAScript strips WhiteSpace and LineTerminator code points from both
    ends.  They are, with their UTF-8 encodings:
    U+0009..U+000D and U+0020 (one byte);
    U+00A0 (C2 A0);
    U+1680 (E1 9A 80);
    U+2000..U+200A, U+2028, U+2029, U+202F (E2 80 80..8A, A8, A9, AF);
    U+205F (E2 81 9F); U+3000 (E3 80 80); U+FEFF (EF BB BF). *)

Definition code (a : ascii) : N := N_of_ascii a.

Definition ws1 (a : ascii) : bool :=
  let c := code a in
  ((9 <=? c) && (c <=? 13) || (c =? 32))%N.

Definition ws2 (a b : ascii) : bool :=
  ((code a =? 194) && (code b =? 160))%N.

Definition ws3 (a b c : ascii) : bool :=
  let x := code a in
  let y := code b in
  let z := code c in
  ((x =? 225) && (y =? 154) && (z =? 128)
   || (x =? 226) && (y =? 128)
      && ((128 <=? z) && (z <=? 138) || (z =? 168) || (z =? 169) || (z =? 175))
   || (x =? 226) && (y =? 129) && (z =? 159)
   || (x =? 227) && (y =? 128) && (z =? 128)
   || (x =? 239) && (y =? 187) && (z =? 191))%N.

(** Strip the white space at the front of a list of bytes. *)
Fixpoint trimStart (s : list ascii) : list ascii :=
  match s with
  | a :: r1 =>
      if ws1 a then trimStart r1
      else
        match r1 with
        | b :: r2 =>
            if ws2 a b then trimStart r2
            else
              match r2 with
              | c :: r3 => if ws3 a b c then trimStart r3 else s
              | [] => s
              end
        | [] => s
        end
  | [] => []
  end.

(** The same from the back: the bytes of each code point arrive in
    reverse order. *)
Fixpoint trimStart_rev (s : list ascii) : list ascii :=
  match s with
  | a :: r1 =>
      if ws1 a then trimStart_rev r1
      else
        match r1 with
        | b :: r2 =>
            if ws2 b a then trimStart_rev r2
            else
              match r2 with
              | c :: r3 => if ws3 c b a then trimStart_rev r3 else s
              | [] => s
              end
        | [] => s
        end
  | [] => []
  end.

Definition trimEnd (s : list ascii) : list ascii :=
  rev (trimStart_rev (rev s)).

Definition trim (s : string) : string :=
  string_of_list_ascii (trimEnd (trimStart (list_ascii_of_string s))).

End Js.

(** ** Data model ([types/data.ts]) *)

Inductive DataType := DT_string | DT_number | DT_boolean.

Inductive EntryType := Single | List.

Inductive CategoryScope := shared | character.

Inductive InteractionType := none | fill_input | send_chat | custom_script.

(** A JavaScript [number].  The functions modelled here store and copy
    numbers; only [sortedCategories] computes with them, on the sort
    weights, which are taken to be integers. *)
Definition number := Z.

Module CategoryDefinition.
Record t := mk {
  key : string;
  name : string;
  icon : string;
  order : number;
  scope : CategoryScope
}.
End CategoryDefinition.

Module Validation.
Record t := mk {
  min : option number;
  max : option number;
  pattern : option string
}.
End Validation.

Module ItemDefinitionPart.
Record t := mk {
  key : string;
  label : string;
  data_type : DataType;
  validation : option Validation.t
}.
End ItemDefinitionPart.

Module ItemDefinition.
Record t := mk {
  key : string;
  name : string;
  icon : option string;
  category : string;
  entry_type : EntryType;
  parts : list ItemDefinitionPart.t;
  separator : string;
  secondary_separator : option string;
  ui_type : option string;
  interaction_type : option InteractionType;
  format : option string;
  description : option string
}.

(** [form.format = f] *)
Definition set_format (f : option string) (d : t) : t :=
  mk (key d) (name d) (icon d) (category d) (entry_type d) (parts d)
     (separator d) (secondary_separator d) (ui_type d)
     (interaction_type d) f (description d).
End ItemDefinition.

(** ** The format string ([generatedFormat], lines 70-91) *)

(** The template literal [`{${k}}`]. *)
Definition braces (k : string) : string := "{" +:+ k +:+ "}".

(** [cat?.scope === 'shared' ? 'ST' : '{角色}'] with
    [cat = categories.value[itemForm.category]]. *)
Definition scopeToken (categories : gmap string CategoryDefinition.t)
    (category : string) : string :=
  match categories !! category with
  | Some cat =>
      match CategoryDefinition.scope cat with
      | shared => "ST"
      | character => "{角色}"
      end
  | None => "{角色}"
  end.

(** The [partTemplate] of the List branch (lines 84-86). *)
Definition partTemplate (itemForm : ItemDefinition.t) : string :=
  let parts := ItemDefinition.parts itemForm in
  if (1 <? length parts)%nat
  then Js.join
         (Js.opt_or_else (ItemDefinition.secondary_separator itemForm) "@")
         (map (fun p => braces (ItemDefinitionPart.key p)) parts)
  else braces
         (match parts !! 0%nat with
          | Some p => Js.or_else (ItemDefinitionPart.key p) "item"
          | None => "item"
          end).

(** The [valuePart] local (lines 77-88). *)
Definition valuePart (itemForm : ItemDefinition.t) : string :=
  let parts := ItemDefinition.parts itemForm in
  if (length parts =? 0)%nat then braces (ItemDefinition.key itemForm)
  else
    match ItemDefinition.entry_type itemForm with
    | Single =>
        Js.join (ItemDefinition.separator itemForm)
                (map (fun p => braces (ItemDefinitionPart.key p)) parts)
    | List =>
        partTemplate itemForm +:+ ItemDefinition.separator itemForm +:+ "..."
    end.

Definition generatedFormat (categories : gmap string CategoryDefinition.t)
    (itemForm : ItemDefinition.t) : string :=
  if negb (Js.truthy (ItemDefinition.key itemForm))
     || negb (Js.truthy (ItemDefinition.category itemForm))
  then ""
  else
    let scope := scopeToken categories (ItemDefinition.category itemForm) in
    let categoryKey := ItemDefinition.category itemForm in
    "[" +:+ scope +:+ "^" +:+ categoryKey +:+ "|"
        +:+ ItemDefinition.key itemForm +:+ "::" +:+ valuePart itemForm +:+ "]".

(** ** Component state (lines 23-51) *)

Record State := mkState {
  categories : gmap string CategoryDefinition.t;
  itemDefinitions : gmap string ItemDefinition.t;
  selectedCategoryKey : option string;
  isSidebarCollapsed : bool;
  isEditingCategory : bool;
  isEditingItem : bool;
  categoryForm : CategoryDefinition.t;
  itemForm : ItemDefinition.t
}.

(** The operator types a draft into one of the two forms. *)
Definition with_categoryForm (d : CategoryDefinition.t) (st : State) : State :=
  mkState (categories st) (itemDefinitions st) (selectedCategoryKey st)
          (isSidebarCollapsed st) (isEditingCategory st) (isEditingItem st)
          d (itemForm st).

Definition with_itemForm (d : ItemDefinition.t) (st : State) : State :=
  mkState (categories st) (itemDefinitions st) (selectedCategoryKey st)
          (isSidebarCollapsed st) (isEditingCategory st) (isEditingItem st)
          (categoryForm st) d.

(** ** Writing into a registry

    [o[k] = v] on a plain object.  An own property [k] is overwritten.
    Without one, the key is looked up along the prototype chain, where
    [__proto__] is the accessor of [Object.prototype]: its setter makes
    [v] the prototype of [o] and no own property is created.  Every other
    key becomes a new own property. *)
Definition assign {A : Type} (k : string) (v : A) (o : gmap string A)
    : gmap string A :=
  match o !! k with
  | Some _ => <[k := v]> o
  | None => if decide (k = "__proto__") then o else <[k := v]> o
  end.

(** ** Category operations (lines 111-125) *)

(** The guard [!form.key.trim() || !form.name.trim()] of both saves. *)
Definition rejected (key name : string) : bool :=
  negb (Js.truthy (Js.trim key)) || negb (Js.truthy (Js.trim name)).

Definition saveCategory (st : State) : State :=
  let form := categoryForm st in
  if rejected (CategoryDefinition.key form) (CategoryDefinition.name form)
  then st
  else
    mkState (assign (CategoryDefinition.key form) form (categories st))
            (itemDefinitions st) (selectedCategoryKey st)
            (isSidebarCollapsed st) false (isEditingItem st)
            form (itemForm st).

(** [confirmed] is the operator's answer to the [confirm] dialog. *)
Definition deleteCategory (confirmed : bool) (key : string) (st : State)
    : State :=
  if confirmed then
    mkState (delete key (categories st))
            (itemDefinitions st)
            (if decide (selectedCategoryKey st = Some key)
             then None else selectedCategoryKey st)
            (isSidebarCollapsed st) (isEditingCategory st) (isEditingItem st)
            (categoryForm st) (itemForm st)
  else st.

(** ** Item operations (lines 152-169) *)

(** [parts.map(p => ({ ...p }))]: a part is a value here, so its copy is
    the part. *)
Definition copyParts (parts : list ItemDefinitionPart.t)
    : list ItemDefinitionPart.t :=
  map (fun p => p) parts.

(** [{ ...itemForm, parts: itemForm.parts.map(p => ({ ...p })) }] *)
Definition snapshot (d : ItemDefinition.t) : ItemDefinition.t :=
  ItemDefinition.mk
    (ItemDefinition.key d) (ItemDefinition.name d) (ItemDefinition.icon d)
    (ItemDefinition.category d) (ItemDefinition.entry_type d)
    (copyParts (ItemDefinition.parts d))
    (ItemDefinition.separator d) (ItemDefinition.secondary_separator d)
    (ItemDefinition.ui_type d) (ItemDefinition.interaction_type d)
    (ItemDefinition.format d) (ItemDefinition.description d).

Definition saveItem (st : State) : State :=
  let form := itemForm st in
  if rejected (ItemDefinition.key form) (ItemDefinition.name form)
  then st
  else
    let form' :=
      ItemDefinition.set_format
        (Some (generatedFormat (categories st) form)) form in
    mkState (categories st)
            (assign (ItemDefinition.key form') (snapshot form')
                    (itemDefinitions st))
            (selectedCategoryKey st)
            (isSidebarCollapsed st) (isEditingCategory st) false
            (categoryForm st) form'.

Definition deleteItem (confirmed : bool) (key : string) (st : State)
    : State :=
  if confirmed then
    mkState (categories st) (delete key (itemDefinitions st))
            (selectedCategoryKey st)
            (isSidebarCollapsed st) (isEditingCategory st) (isEditingItem st)
            (categoryForm st) (itemForm st)
  else st.

(** ** JavaScript arrays indexed by arbitrary integers

    [movePart] and [removePart] index [itemForm.parts] with a caller-given
    number, so they are modelled on the array as JavaScript has it: the
    slots [0 .. length-1], each holding a value or [undefined] ([None]),
    and the own properties at negative integer keys, which are not part of
    the sequence but are read and written by [a[i]] all the same.  A typed
    array [T[]] is [of_list l]. *)

Module JsArray.
Section array.
Context {A : Type}.

Record t := mk {
  elems : list (option A);
  props : gmap Z (option A)
}.

Definition of_list (l : list A) : t := mk (Some <$> l) ∅.

Definition length (a : t) : Z := Z.of_nat (Datatypes.length (elems a)).

(** [a[i]]: [undefined] outside the array. *)
Definition get (a : t) (i : Z) : option A :=
  if (i <? 0)%Z then mjoin (props a !! i)
  else mjoin (elems a !! Z.to_nat i).

(** [a[i] = v]: inside the array the slot is overwritten; at or after
    [length] the array grows, the slots in between being holes; at a
    negative key an ordinary property is written. *)
Definition set (a : t) (i : Z) (v : option A) : t :=
  if (i <? 0)%Z then mk (elems a) (<[i := v]> (props a))
  else if (i <? length a)%Z
       then mk (<[Z.to_nat i := v]> (elems a)) (props a)
       else mk (elems a ++ replicate (Z.to_nat (i - length a)) None ++ [v])
               (props a).

(** [a.push(x)] *)
Definition push (a : t) (x : A) : t :=
  mk (elems a ++ [Some x]) (props a).

(** [a.splice(start, deleteCount)] with no inserted items
    (ECMAScript, Array.prototype.splice, steps 3-10). *)
Definition splice (a : t) (start deleteCount : Z) : t :=
  let len := length a in
  let actualStart :=
    if (start <? 0)%Z then Z.max (len + start) 0 else Z.min start len in
  let actualDeleteCount :=
    Z.min (Z.max deleteCount 0) (len - actualStart) in
  mk (take (Z.to_nat actualStart) (elems a)
        ++ drop (Z.to_nat (actualStart + actualDeleteCount)) (elems a))
     (props a).
End array.

Arguments t : clear implicits.
End JsArray.

(** ** Parts operations (lines 173-191), on [itemForm.parts] *)

Definition addPart (parts : JsArray.t ItemDefinitionPart.t)
    : JsArray.t ItemDefinitionPart.t :=
  JsArray.push parts (ItemDefinitionPart.mk "" "" DT_string None).

Definition removePart (index : Z) (parts : JsArray.t ItemDefinitionPart.t)
    : JsArray.t ItemDefinitionPart.t :=
  JsArray.splice parts index 1.

Definition movePart (index direction : Z)
    (parts : JsArray.t ItemDefinitionPart.t)
    : JsArray.t ItemDefinitionPart.t :=
  let newIndex := (index + direction)%Z in
  if (newIndex <? 0)%Z || (JsArray.length parts <=? newIndex)%Z then parts
  else
    let temp := JsArray.get parts index in
    let parts := JsArray.set parts index (JsArray.get parts newIndex) in
    JsArray.set parts newIndex temp.

(** ** Vocabulary of the statements *)

(** The frame put around a value part [v] (line 90). *)
Definition framed (categories : gmap string CategoryDefinition.t)
    (d : ItemDefinition.t) (v : string) : string :=
  "[" +:+ scopeToken categories (ItemDefinition.category d) +:+ "^"
      +:+ ItemDefinition.category d +:+ "|" +:+ ItemDefinition.key d
      +:+ "::" +:+ v +:+ "]".

(** The keys of the parts, each in braces, in part order. *)
Definition wrapped (d : ItemDefinition.t) : list string :=
  map (fun p => "{" +:+ ItemDefinitionPart.key p +:+ "}")
      (ItemDefinition.parts d).

(** *** Sample data: the two scenarios of the specification *)

Definition cat_world : CategoryDefinition.t :=
  CategoryDefinition.mk "ST1" "世界" "folder" 0%Z shared.

Definition cat_stats : CategoryDefinition.t :=
  CategoryDefinition.mk "CV" "角色属性" "folder" 1%Z character.

Definition sample_categories : gmap string CategoryDefinition.t :=
  <["CV" := cat_stats]> (<["ST1" := cat_world]> ∅).

Definition sample_part (k : string) : ItemDefinitionPart.t :=
  ItemDefinitionPart.mk k "" DT_string None.

Definition sample_item (key category : string) (entry_type : EntryType)
    (parts : list ItemDefinitionPart.t) (secondary : option string)
    : ItemDefinition.t :=
  ItemDefinition.mk key "n" None category entry_type parts "|" secondary
                    None None None None.

Definition item_weather : ItemDefinition.t :=
  sample_item "天气" "ST1" Single [] (Some "@").

Definition item_hp : ItemDefinition.t :=
  sample_item "HP" "CV" Single [sample_part "value"] (Some "@").

Definition sample_state (c : CategoryDefinition.t) (d : ItemDefinition.t)
    : State :=
  mkState sample_categories ∅ None false true true c d.

(** The value part of a List draft as the specification words it: the part
    template, then the separator, then ["..."]; with more than one part the
    template joins the braced keys with the secondary separator, ["@"]
    standing in when it is unset; with one part it is that part's key in
    braces. *)
Definition spec_list_valuePart (d : ItemDefinition.t) : string :=
  let secondary :=
    match ItemDefinition.secondary_separator d with
    | Some s => s
    | None => "@"
    end in
  let part_template :=
    match ItemDefinition.parts d with
    | [p] => "{" +:+ ItemDefinitionPart.key p +:+ "}"
    | _ => Js.join secondary (wrapped d)
    end in
  part_template +:+ ItemDefinition.separator d +:+ "...".

(** A List draft with the one part that [addPart] appends (its key still
    blank), and one with two parts and a blank secondary separator. *)
Definition list_blank_part : ItemDefinition.t :=
  sample_item "背包" "CV" List [sample_part ""] (Some "@").

Definition list_blank_secondary : ItemDefinition.t :=
  sample_item "背包" "CV" List [sample_part "name"; sample_part "count"]
              (Some "").


Definition item_two_parts : ItemDefinition.t :=
  sample_item "HP" "CV" Single [sample_part "current"; sample_part "max"]
              (Some "@").


(** *** The selection invariant and the runs of the component *)

(** [selectedCategoryKey = k], written by the sidebar buttons (template,
    lines 231 and 246). *)
Definition with_selected (k : option string) (st : State) : State :=
  mkState (categories st) (itemDefinitions st) k
          (isSidebarCollapsed st) (isEditingCategory st) (isEditingItem st)
          (categoryForm st) (itemForm st).

(** A selected category key references an existing entry or is null. *)
Definition selection_ok (st : State) : Prop :=
  forall k, selectedCategoryKey st = Some k -> is_Some (categories st !! k).

(** Every category is stored under its own key. *)
Definition keyed (st : State) : Prop :=
  forall k c, categories st !! k = Some c -> CategoryDefinition.key c = k.

(** The refs as they are initialised (lines 23 and 27). *)
Definition initial (st : State) : Prop :=
  categories st = ∅ /\ selectedCategoryKey st = None.

(** One event of the component.  [categories] is written by [saveCategory]
    and [deleteCategory] only, and [selectedCategoryKey] by
    [deleteCategory] and the two sidebar buttons only, the second of which
    is rendered per stored category [cat] and selects [cat.key]; every
    other event (typing in a form, the item and parts operations, opening
    and closing a drawer) leaves both alone. *)
Inductive step : State -> State -> Prop :=
| step_saveCategory st :
    step st (saveCategory st)
| step_deleteCategory confirmed key st :
    step st (deleteCategory confirmed key st)
| step_select_all st :
    step st (with_selected None st)
| step_select st k cat :
    categories st !! k = Some cat ->
    step st (with_selected (Some (CategoryDefinition.key cat)) st)
| step_other st st' :
    categories st' = categories st ->
    selectedCategoryKey st' = selectedCategoryKey st ->
    step st st'.

Inductive reachable : State -> Prop :=
| reachable_initial st : initial st -> reachable st
| reachable_step st st' : reachable st -> step st st' -> reachable st'.

(** A state in which the category [k] is stored, selected, and referenced
    by one item. *)
Definition state_selected (k : string) : State :=
  mkState (<[k := CategoryDefinition.mk k "分类" "folder" 0%Z character]>
             sample_categories)
          (<["HP" := sample_item "HP" k Single [] None]> ∅)
          (Some k) false false false cat_stats item_hp.


(** Drafts whose key is one space: not empty, empty once trimmed. *)
Definition category_space_key : CategoryDefinition.t :=
  CategoryDefinition.mk " " "分类" "folder" 0%Z character.

Definition item_space_key : ItemDefinition.t :=
  sample_item " " "CV" Single [] None.


Definition three_parts : JsArray.t ItemDefinitionPart.t :=
  JsArray.of_list [sample_part "a"; sample_part "b"; sample_part "c"].


(** ** The rest of the component *)

(** *** Computed lists (lines 55-67)

    [Object.values(o)] lists the values of the own properties in
    JavaScript's property order (integer-like keys ascending, then the
    other keys in insertion order).  A [gmap] does not record that order:
    [Object_values m] lists the values of [m] in the order of the map, and
    [enumerates m l] says that [l] lists them in some order.  What is
    proved of a list computed from [Object.values] is proved for every
    such [l]. *)
Definition Object_values {A : Type} (m : gmap string A) : list A :=
  (map_to_list m).*2.

Definition enumerates {A : Type} (m : gmap string A) (l : list A) : Prop :=
  l ≡ₚ Object_values m.

(** [Array.prototype.sort(cmp)].  The result is the stable sort of the
    array whenever [cmp] is a consistent comparator, whatever algorithm
    the engine runs; insertion from the right is one that computes it.
    [cmp x y <= 0] keeps [x] in front of [y]. *)
Fixpoint sort_insert {A : Type} (cmp : A -> A -> Z) (x : A) (l : list A)
    : list A :=
  match l with
  | [] => [x]
  | y :: l' =>
      if (cmp x y <=? 0)%Z then x :: l else y :: sort_insert cmp x l'
  end.

Definition Array_sort {A : Type} (cmp : A -> A -> Z) (l : list A) : list A :=
  foldr (sort_insert cmp) [] l.

(** [Object.values(categories.value).sort((a, b) => a.order - b.order)],
    on the list [Object.values] returns; the sort weights are integers. *)
Definition sortedCategories (values : list CategoryDefinition.t)
    : list CategoryDefinition.t :=
  Array_sort
    (fun a b => (CategoryDefinition.order a - CategoryDefinition.order b)%Z)
    values.

(** [filteredItems], on the list [Object.values(itemDefinitions.value)]
    returns: [null] and the empty string are both falsy. *)
Definition filteredItems (selectedCategoryKey : option string)
    (items : list ItemDefinition.t) : list ItemDefinition.t :=
  match selectedCategoryKey with
  | Some k =>
      if negb (Js.truthy k) then items
      else filter (fun item => ItemDefinition.category item = k) items
  | None => items
  end.

(** [currentCategory]: [None] is [null], or the [undefined] of a key that
    is not in the registry. *)
Definition currentCategory (st : State) : option CategoryDefinition.t :=
  match selectedCategoryKey st with
  | Some k => if Js.truthy k then categories st !! k else None
  | None => None
  end.

(** *** Opening the drawers (lines 95-109, 129-150) *)

Definition openNewCategory (st : State) : State :=
  mkState (categories st) (itemDefinitions st) (selectedCategoryKey st)
          (isSidebarCollapsed st) true (isEditingItem st)
          (CategoryDefinition.mk
             "" "" "folder"
             (Z.of_nat
                (length (sortedCategories (Object_values (categories st)))))
             character)
          (itemForm st).

(** [Object.assign(categoryForm, { ...cat })]: a category has all five
    fields, so every field of the form is overwritten. *)
Definition editCategory (cat : CategoryDefinition.t) (st : State) : State :=
  mkState (categories st) (itemDefinitions st) (selectedCategoryKey st)
          (isSidebarCollapsed st) true (isEditingItem st)
          cat (itemForm st).

(** [Object.assign] writes the properties its source has.  For an optional
    field, [None] in the source is a property the source does not have
    (no object of the component holds a property whose value is
    [undefined]), and the target keeps what it had. *)
Definition assign_opt {A : Type} (source target : option A) : option A :=
  match source with
  | Some v => Some v
  | None => target
  end.

(** The object literal of [openNewItem] has no [ui_type],
    [interaction_type] or [format]: the form keeps its own. *)
Definition openNewItem (st : State) : State :=
  mkState (categories st) (itemDefinitions st) (selectedCategoryKey st)
          (isSidebarCollapsed st) (isEditingCategory st) true
          (categoryForm st)
          (ItemDefinition.mk
             "" "" (Some "")
             (Js.opt_or_else (selectedCategoryKey st) "")
             Single
             [ItemDefinitionPart.mk "value" "值" DT_string None]
             "|" (Some "@")
             (ItemDefinition.ui_type (itemForm st))
             (ItemDefinition.interaction_type (itemForm st))
             (ItemDefinition.format (itemForm st))
             (Some "")).

(** [Object.assign(itemForm, { ...item, parts: item.parts.map(...) })] *)
Definition editItem (item : ItemDefinition.t) (st : State) : State :=
  let form := itemForm st in
  mkState (categories st) (itemDefinitions st) (selectedCategoryKey st)
          (isSidebarCollapsed st) (isEditingCategory st) true
          (categoryForm st)
          (ItemDefinition.mk
             (ItemDefinition.key item) (ItemDefinition.name item)
             (assign_opt (ItemDefinition.icon item) (ItemDefinition.icon form))
             (ItemDefinition.category item) (ItemDefinition.entry_type item)
             (copyParts (ItemDefinition.parts item))
             (ItemDefinition.separator item)
             (assign_opt (ItemDefinition.secondary_separator item)
                         (ItemDefinition.secondary_separator form))
             (assign_opt (ItemDefinition.ui_type item)
                         (ItemDefinition.ui_type form))
             (assign_opt (ItemDefinition.interaction_type item)
                         (ItemDefinition.interaction_type form))
             (assign_opt (ItemDefinition.format item)
                         (ItemDefinition.format form))
             (assign_opt (ItemDefinition.description item)
                         (ItemDefinition.description form))).

(** *** The component from its first render

    The refs and forms as the script initialises them (lines 23-51). *)
Definition init : State :=
  mkState ∅ ∅ None false false false
          (CategoryDefinition.mk "" "" "folder" 0%Z character)
          (ItemDefinition.mk "" "" (Some "") "" Single [] "|" (Some "@")
                             None None None (Some "")).

(** What the operator can do.  The sidebar and the item grid are rendered
    from the registries, so [SelectCategory], [EditCategory] and
    [EditItem] carry a stored object ([enabled]).  [InputCategory] and
    [InputItem] stand for any edit made through the inputs of a drawer
    (and, for the item drawer, its parts buttons): they replace the draft
    by an arbitrary one. *)
Inductive Event :=
| OpenNewCategory
| EditCategory (cat : CategoryDefinition.t)
| InputCategory (draft : CategoryDefinition.t)
| SaveCategory
| CloseCategoryDrawer
| DeleteCategory (confirmed : bool) (key : string)
| SelectAll
| SelectCategory (cat : CategoryDefinition.t)
| OpenNewItem
| EditItem (item : ItemDefinition.t)
| InputItem (draft : ItemDefinition.t)
| SaveItem
| CloseItemDrawer
| DeleteItem (confirmed : bool) (key : string).

Definition handle (e : Event) (st : State) : State :=
  match e with
  | OpenNewCategory => openNewCategory st
  | EditCategory cat => editCategory cat st
  | InputCategory draft => with_categoryForm draft st
  | SaveCategory => saveCategory st
  | CloseCategoryDrawer =>
      mkState (categories st) (itemDefinitions st) (selectedCategoryKey st)
              (isSidebarCollapsed st) false (isEditingItem st)
              (categoryForm st) (itemForm st)
  | DeleteCategory confirmed key => deleteCategory confirmed key st
  | SelectAll => with_selected None st
  | SelectCategory cat =>
      with_selected (Some (CategoryDefinition.key cat)) st
  | OpenNewItem => openNewItem st
  | EditItem item => editItem item st
  | InputItem draft => with_itemForm draft st
  | SaveItem => saveItem st
  | CloseItemDrawer =>
      mkState (categories st) (itemDefinitions st) (selectedCategoryKey st)
              (isSidebarCollapsed st) (isEditingCategory st) false
              (categoryForm st) (itemForm st)
  | DeleteItem confirmed key => deleteItem confirmed key st
  end.

Definition stored {A : Type} (m : gmap string A) (x : A) : Prop :=
  exists k, m !! k = Some x.

Definition enabled (st : State) (e : Event) : Prop :=
  match e with
  | EditCategory cat | SelectCategory cat => stored (categories st) cat
  | EditItem item => stored (itemDefinitions st) item
  | _ => True
  end.

Inductive runs : State -> Prop :=
| runs_init : runs init
| runs_event st e : runs st -> enabled st e -> runs (handle e st).

(** A key or a name that a save accepts. *)
Definition filled (s : string) : Prop := Js.trim s <> "".


(** The draft [d] with another category and key typed in. *)
Definition retarget (category key : string) (d : ItemDefinition.t)
    : ItemDefinition.t :=
  ItemDefinition.mk
    key (ItemDefinition.name d) (ItemDefinition.icon d) category
    (ItemDefinition.entry_type d) (ItemDefinition.parts d)
    (ItemDefinition.separator d) (ItemDefinition.secondary_separator d)
    (ItemDefinition.ui_type d) (ItemDefinition.interaction_type d)
    (ItemDefinition.format d) (ItemDefinition.description d).

(** The keys of the parts, which is all the format reads of them. *)
Definition part_keys (d : ItemDefinition.t) : list string :=
  ItemDefinitionPart.key <$> ItemDefinition.parts d.


(** A registry with three categories, two of them of weight 1. *)
Definition cat_place : CategoryDefinition.t :=
  CategoryDefinition.mk "ST2" "地点" "folder" 1%Z shared.

Definition three_categories : gmap string CategoryDefinition.t :=
  <["ST2" := cat_place]> sample_categories.


(** The comparator of [sortedCategories], and what it sorts into. *)
Definition by_order (a b : CategoryDefinition.t) : Z :=
  (CategoryDefinition.order a - CategoryDefinition.order b)%Z.

Definition ascending (l : list CategoryDefinition.t) : Prop :=
  forall (i j : nat) a b,
    (i < j)%nat -> l !! i = Some a -> l !! j = Some b ->
    (CategoryDefinition.order a <= CategoryDefinition.order b)%Z.

(** What the saves let into the registries. *)
Definition valid_category (k : string) (c : CategoryDefinition.t) : Prop :=
  CategoryDefinition.key c = k
  /\ filled k /\ filled (CategoryDefinition.name c).

Definition valid_item (k : string) (d : ItemDefinition.t) : Prop :=
  ItemDefinition.key d = k
  /\ filled k /\ filled (ItemDefinition.name d)
  /\ is_Some (ItemDefinition.format d).

Definition registries_valid (st : State) : Prop :=
  (forall k c, categories st !! k = Some c -> valid_category k c)
  /\ (forall k d, itemDefinitions st !! k = Some d -> valid_item k d).

(** A short session: a category is typed in and saved, selected, and an
    item is created in it. *)
Definition session_category : State :=
  handle (SelectCategory cat_world)
         (handle SaveCategory
                 (handle (InputCategory cat_world)
                         (handle OpenNewCategory init))).

Definition session_item : State :=
  handle SaveItem
         (handle (InputItem item_weather) (handle OpenNewItem session_category)).


(** The part [addPart] appends. *)
Definition blank_part : ItemDefinitionPart.t :=
  ItemDefinitionPart.mk "" "" DT_string None.


(** The category draft [c] with another key typed in. *)
Definition rekey (key : string) (c : CategoryDefinition.t)
    : CategoryDefinition.t :=
  CategoryDefinition.mk key (CategoryDefinition.name c)
                        (CategoryDefinition.icon c)
                        (CategoryDefinition.order c)
                        (CategoryDefinition.scope c).


(** A category draft whose key is [__proto__]. *)
Definition category_proto_key : CategoryDefinition.t :=
  CategoryDefinition.mk "__proto__" "原型" "folder" 0%Z shared.


(** * Properties *)

(** ** Strings *)

Lemma truthy_true (s : string) : Js.truthy s = true <-> s <> "".
Proof. destruct s; simpl; split; intros; congruence. Qed.

Lemma truthy_false (s : string) : Js.truthy s = false <-> s = "".
Proof. destruct s; simpl; split; intros; congruence. Qed.

Lemma or_else_nonempty (s d : string) : s <> "" -> Js.or_else s d = s.
Proof. intros H. unfold Js.or_else. apply truthy_true in H. now rewrite H. Qed.

Lemma or_else_empty (d : string) : Js.or_else "" d = d.
Proof. reflexivity. Qed.

Lemma trim_examples :
  Js.trim "  HP " = "HP"
  /\ Js.trim " " = ""
  /\ Js.trim " 　 " = ""
  /\ Js.trim " 角 色 " = "角 色".
Proof. repeat split; vm_compute; reflexivity. Qed.

Lemma rejected_false (k n : string) :
  rejected k n = false <-> Js.trim k <> "" /\ Js.trim n <> "".
Proof.
  unfold rejected. rewrite orb_false_iff, !negb_false_iff, !truthy_true.
  tauto.
Qed.

Lemma rejected_true (k n : string) :
  rejected k n = true <-> Js.trim k = "" \/ Js.trim n = "".
Proof.
  unfold rejected. rewrite orb_true_iff, !negb_true_iff, !truthy_false.
  tauto.
Qed.

(** ** The format string *)

Lemma generatedFormat_blocked categories d :
  ItemDefinition.key d = "" \/ ItemDefinition.category d = "" ->
  generatedFormat categories d = "".
Proof.
  intros [H | H]; unfold generatedFormat; rewrite H; simpl; [reflexivity |].
  now rewrite orb_true_r.
Qed.

Lemma generatedFormat_framed categories d :
  ItemDefinition.key d <> "" -> ItemDefinition.category d <> "" ->
  generatedFormat categories d = framed categories d (valuePart d).
Proof.
  intros Hk Hc. unfold generatedFormat.
  apply truthy_true in Hk, Hc. rewrite Hk, Hc. reflexivity.
Qed.

Lemma scopeToken_shared categories k c :
  categories !! k = Some c -> CategoryDefinition.scope c = shared ->
  scopeToken categories k = "ST".
Proof. intros H1 H2. unfold scopeToken. now rewrite H1, H2. Qed.

Lemma scopeToken_character categories k :
  (categories !! k = None
   \/ exists c, categories !! k = Some c
                /\ CategoryDefinition.scope c = character) ->
  scopeToken categories k = "{角色}".
Proof.
  unfold scopeToken. intros [H | (c & H1 & H2)].
  - now rewrite H.
  - now rewrite H1, H2.
Qed.

Lemma valuePart_nonempty_parts d :
  ItemDefinition.parts d <> [] ->
  valuePart d =
    match ItemDefinition.entry_type d with
    | Single => Js.join (ItemDefinition.separator d) (wrapped d)
    | List => partTemplate d +:+ ItemDefinition.separator d +:+ "..."
    end.
Proof.
  intros H. unfold valuePart.
  destruct (ItemDefinition.parts d) eqn:E; [congruence |].
  unfold wrapped. rewrite E. reflexivity.
Qed.

(** C1. [generatedFormat] is a function of the draft and the category
    registry alone.  When the draft's key or its category is empty the
    result is the empty string.  Otherwise it is
    ["[" + scope_token + "^" + category + "|" + key + "::" + value_part + "]"]
    where the scope token is ["ST"] when the registry resolves the draft's
    category to a definition of scope [shared], and ["{角色}"] when the
    definition has scope [character] or the category is not in the
    registry. *)
Theorem generatedFormat_spec categories (d : ItemDefinition.t) :
  (ItemDefinition.key d = "" \/ ItemDefinition.category d = "" ->
   generatedFormat categories d = "")
  /\ (ItemDefinition.key d <> "" -> ItemDefinition.category d <> "" ->
      (forall c,
          categories !! ItemDefinition.category d = Some c ->
          CategoryDefinition.scope c = shared ->
          generatedFormat categories d =
            "[" +:+ "ST" +:+ "^" +:+ ItemDefinition.category d +:+ "|"
                +:+ ItemDefinition.key d +:+ "::" +:+ valuePart d +:+ "]")
      /\ ((categories !! ItemDefinition.category d = None
           \/ exists c,
               categories !! ItemDefinition.category d = Some c
               /\ CategoryDefinition.scope c = character) ->
          generatedFormat categories d =
            "[" +:+ "{角色}" +:+ "^" +:+ ItemDefinition.category d +:+ "|"
                +:+ ItemDefinition.key d +:+ "::" +:+ valuePart d +:+ "]")).
Proof.
  split; [apply generatedFormat_blocked |].
  intros Hk Hc. rewrite (generatedFormat_framed _ _ Hk Hc). unfold framed.
  split.
  - intros c H1 H2. now rewrite (scopeToken_shared _ _ _ H1 H2).
  - intros H. now rewrite (scopeToken_character _ _ H).
Qed.

Lemma generatedFormat_spec_witness :
  generatedFormat sample_categories item_weather = "[ST^ST1|天气::{天气}]"
  /\ generatedFormat sample_categories item_hp = "[{角色}^CV|HP::{value}]"
  /\ generatedFormat sample_categories
       (sample_item "" "CV" Single [] None) = "".
Proof.
  split; [| split].
  - refine (proj1 (proj2 (generatedFormat_spec sample_categories item_weather)
                     _ _) cat_world _ _);
      [discriminate | discriminate | reflexivity | reflexivity].
  - refine (proj2 (proj2 (generatedFormat_spec sample_categories item_hp)
                     _ _) _); [discriminate | discriminate |].
    right. exists cat_stats. split; reflexivity.
  - apply (proj1 (generatedFormat_spec sample_categories
                    (sample_item "" "CV" Single [] None))).
    left. reflexivity.
Defined.

Lemma append_assoc (a b c : string) : (a +:+ b) +:+ c = a +:+ b +:+ c.
Proof.
  induction a as [| x a IH]; [reflexivity |].
  change (String x ((a +:+ b) +:+ c) = String x (a +:+ b +:+ c)).
  now rewrite IH.
Qed.

Lemma join_two (sep x y : string) : Js.join sep [x; y] = x +:+ sep +:+ y.
Proof. reflexivity. Qed.

Lemma join_cons (sep x y : string) (l : list string) :
  Js.join sep (x :: y :: l) = x +:+ sep +:+ Js.join sep (y :: l).
Proof. reflexivity. Qed.

Lemma partTemplate_many d :
  (1 < length (ItemDefinition.parts d))%nat ->
  partTemplate d =
    Js.join (Js.opt_or_else (ItemDefinition.secondary_separator d) "@")
            (wrapped d).
Proof.
  intros H. unfold partTemplate.
  apply Nat.ltb_lt in H. now rewrite H.
Qed.

Lemma partTemplate_one d p :
  ItemDefinition.parts d = [p] ->
  partTemplate d = "{" +:+ Js.or_else (ItemDefinitionPart.key p) "item" +:+ "}".
Proof. intros H. unfold partTemplate. rewrite H. reflexivity. Qed.

(** C2, as the code has it.  For a draft with non-empty key and category,
    entry type [List] and at least one part, the value part is
    [part_template + separator + "..."].  With more than one part the
    template is the braced part keys joined with the secondary separator,
    and with ["@"] when the secondary separator is unset or is the empty
    string.  With exactly one part [p] the template is ["{" + p.key + "}"]
    when [p.key] is non-empty and ["{item}"] when it is empty.  In
    particular a single part with a non-empty key and separator ["|"]
    gives ["{" + p.key + "}|..."]. *)
Theorem list_valuePart_spec categories (d : ItemDefinition.t) :
  ItemDefinition.key d <> "" -> ItemDefinition.category d <> "" ->
  ItemDefinition.entry_type d = List ->
  ItemDefinition.parts d <> [] ->
  exists part_template,
    valuePart d = part_template +:+ ItemDefinition.separator d +:+ "..."
    /\ generatedFormat categories d =
         framed categories d
                (part_template +:+ ItemDefinition.separator d +:+ "...")
    /\ ((1 < length (ItemDefinition.parts d))%nat ->
        (forall s, ItemDefinition.secondary_separator d = Some s ->
                   s <> "" ->
                   part_template = Js.join s (wrapped d))
        /\ (ItemDefinition.secondary_separator d = None
            \/ ItemDefinition.secondary_separator d = Some "" ->
            part_template = Js.join "@" (wrapped d)))
    /\ (forall p, ItemDefinition.parts d = [p] ->
          (ItemDefinitionPart.key p <> "" ->
           part_template = "{" +:+ ItemDefinitionPart.key p +:+ "}")
          /\ (ItemDefinitionPart.key p = "" -> part_template = "{item}")
          /\ (ItemDefinitionPart.key p <> "" ->
              ItemDefinition.separator d = "|" ->
              valuePart d = "{" +:+ ItemDefinitionPart.key p +:+ "}|...")).
Proof.
  intros Hk Hc Ht Hp.
  assert (Hv : valuePart d
               = partTemplate d +:+ ItemDefinition.separator d +:+ "...").
  { rewrite (valuePart_nonempty_parts _ Hp), Ht. reflexivity. }
  exists (partTemplate d). split; [exact Hv |]. split.
  { rewrite (generatedFormat_framed _ _ Hk Hc), Hv. reflexivity. }
  split.
  - intros Hlen. rewrite (partTemplate_many _ Hlen). split.
    + intros s Hs Hne. rewrite Hs. simpl. now rewrite or_else_nonempty.
    + intros [Hs | Hs]; rewrite Hs; reflexivity.
  - intros p Hparts. rewrite Hv, (partTemplate_one _ _ Hparts).
    split; [| split].
    + intros Hne. now rewrite or_else_nonempty.
    + intros He. rewrite He. reflexivity.
    + intros Hne Hsep. rewrite Hsep, or_else_nonempty by exact Hne.
      now rewrite !append_assoc.
Qed.

Lemma list_valuePart_spec_witness :
  (exists part_template,
      valuePart list_blank_secondary = part_template +:+ "|" +:+ "..."
      /\ generatedFormat sample_categories list_blank_secondary =
           framed sample_categories list_blank_secondary
                  (part_template +:+ "|" +:+ "...")
      /\ part_template = "{name}@{count}")
  /\ (exists part_template,
        valuePart list_blank_part = part_template +:+ "|" +:+ "..."
        /\ part_template = "{item}")
  /\ valuePart (sample_item "背包" "CV" List [sample_part "物品"] None)
     = "{物品}|...".
Proof.
  split; [| split].
  - destruct (list_valuePart_spec sample_categories list_blank_secondary)
      as (pt & Hv & Hg & Hmany & _);
      [discriminate | discriminate | reflexivity | discriminate |].
    exists pt. split; [exact Hv |]. split; [exact Hg |].
    apply Hmany; [simpl; lia |]. right. reflexivity.
  - destruct (list_valuePart_spec sample_categories list_blank_part)
      as (pt & Hv & _ & _ & Hone);
      [discriminate | discriminate | reflexivity | discriminate |].
    exists pt. split; [exact Hv |].
    apply (Hone (sample_part "")); reflexivity.
  - destruct (list_valuePart_spec sample_categories
                (sample_item "背包" "CV" List [sample_part "物品"] None))
      as (pt & _ & _ & _ & Hone);
      [discriminate | discriminate | reflexivity | discriminate |].
    apply (Hone (sample_part "物品")); [reflexivity | discriminate | reflexivity].
Defined.

(** C2, counterexample.  The specification puts ["{" + p.key + "}"] for
    every single part and joins with the secondary separator whenever it
    is set.  A single part with a blank key gives ["{item}|..."], not
    ["{}|..."]; two parts with a blank secondary separator are joined with
    ["@"]. *)
Lemma list_valuePart_counterexample :
  (valuePart list_blank_part = "{item}|..."
   /\ spec_list_valuePart list_blank_part = "{}|..."
   /\ valuePart list_blank_part <> spec_list_valuePart list_blank_part)
  /\ (valuePart list_blank_secondary = "{name}@{count}|..."
      /\ spec_list_valuePart list_blank_secondary = "{name}{count}|..."
      /\ valuePart list_blank_secondary
         <> spec_list_valuePart list_blank_secondary).
Proof. repeat split; (reflexivity || discriminate). Qed.

(** C3.  For a draft with non-empty key and category, entry type [Single]
    and at least one part, the value part is the part keys, each wrapped as
    ["{" + part.key + "}"], joined in part order with the draft's
    separator; for parts [[p1, p2]] and separator ["|"] it is
    ["{" + p1.key + "}|{" + p2.key + "}"]. *)
Theorem single_valuePart_spec categories (d : ItemDefinition.t) :
  ItemDefinition.key d <> "" -> ItemDefinition.category d <> "" ->
  ItemDefinition.entry_type d = Single ->
  ItemDefinition.parts d <> [] ->
  valuePart d = Js.join (ItemDefinition.separator d) (wrapped d)
  /\ generatedFormat categories d =
       framed categories d
              (Js.join (ItemDefinition.separator d) (wrapped d))
  /\ (forall p1 p2,
        ItemDefinition.parts d = [p1; p2] ->
        ItemDefinition.separator d = "|" ->
        valuePart d =
          "{" +:+ ItemDefinitionPart.key p1 +:+ "}|{"
              +:+ ItemDefinitionPart.key p2 +:+ "}").
Proof.
  intros Hk Hc Ht Hp.
  assert (Hv : valuePart d
               = Js.join (ItemDefinition.separator d) (wrapped d)).
  { rewrite (valuePart_nonempty_parts _ Hp), Ht. reflexivity. }
  split; [exact Hv |]. split.
  - rewrite (generatedFormat_framed _ _ Hk Hc), Hv. reflexivity.
  - intros p1 p2 Hparts Hsep. rewrite Hv. unfold wrapped.
    rewrite Hparts, Hsep. cbn [map]. rewrite join_two.
    now rewrite !append_assoc.
Qed.

Lemma single_valuePart_spec_witness :
  valuePart item_two_parts = "{current}|{max}"
  /\ generatedFormat sample_categories item_two_parts
     = "[{角色}^CV|HP::{current}|{max}]".
Proof.
  destruct (single_valuePart_spec sample_categories item_two_parts)
    as (Hv & Hg & _);
    [discriminate | discriminate | reflexivity | discriminate |].
  split; [exact Hv | exact Hg].
Defined.

(** C4.  For a draft with non-empty key and category and no parts, the
    value part is ["{" + draft.key + "}"] whatever the entry type; the
    shared category [ST1] with the item key [天气] gives
    ["[ST^ST1|天气::{天气}]"]. *)
Theorem empty_parts_valuePart categories (d : ItemDefinition.t) :
  ItemDefinition.key d <> "" -> ItemDefinition.category d <> "" ->
  ItemDefinition.parts d = [] ->
  valuePart d = "{" +:+ ItemDefinition.key d +:+ "}"
  /\ generatedFormat categories d =
       framed categories d ("{" +:+ ItemDefinition.key d +:+ "}")
  /\ (forall c,
        categories !! "ST1" = Some c ->
        CategoryDefinition.scope c = shared ->
        ItemDefinition.key d = "天气" ->
        ItemDefinition.category d = "ST1" ->
        generatedFormat categories d = "[ST^ST1|天气::{天气}]").
Proof.
  intros Hk Hc Hp.
  assert (Hv : valuePart d = "{" +:+ ItemDefinition.key d +:+ "}").
  { unfold valuePart. rewrite Hp. reflexivity. }
  assert (Hg : generatedFormat categories d =
               framed categories d ("{" +:+ ItemDefinition.key d +:+ "}")).
  { rewrite (generatedFormat_framed _ _ Hk Hc), Hv. reflexivity. }
  split; [exact Hv |]. split; [exact Hg |].
  intros c Hl Hs Hkey Hcat. rewrite Hg. unfold framed.
  rewrite Hcat, (scopeToken_shared _ _ _ Hl Hs), Hkey. reflexivity.
Qed.

Lemma empty_parts_valuePart_witness :
  valuePart item_weather = "{天气}"
  /\ valuePart (sample_item "天气" "ST1" List [] None) = "{天气}"
  /\ generatedFormat sample_categories item_weather = "[ST^ST1|天气::{天气}]".
Proof.
  split; [| split].
  - refine (proj1 (empty_parts_valuePart sample_categories item_weather
                     _ _ _)); (discriminate || reflexivity).
  - refine (proj1 (empty_parts_valuePart sample_categories
                     (sample_item "天气" "ST1" List [] None) _ _ _));
      (discriminate || reflexivity).
  - refine (proj2 (proj2 (empty_parts_valuePart sample_categories item_weather
                            _ _ _)) cat_world _ _ _ _);
      (discriminate || reflexivity).
Defined.

(** ** The registries *)

Lemma trim_empty : Js.trim "" = "".
Proof. reflexivity. Qed.

Lemma rejected_empty (k n : string) : k = "" \/ n = "" -> rejected k n = true.
Proof.
  intros [-> | ->]; apply rejected_true; [left | right]; apply trim_empty.
Qed.

Lemma copyParts_id parts : copyParts parts = parts.
Proof. unfold copyParts. apply map_id. Qed.

Lemma snapshot_id d : snapshot d = d.
Proof. destruct d. unfold snapshot. cbn. now rewrite copyParts_id. Qed.

Lemma generatedFormat_set_format categories f d :
  generatedFormat categories (ItemDefinition.set_format f d)
  = generatedFormat categories d.
Proof. destruct d. reflexivity. Qed.

Lemma set_format_twice f g d :
  ItemDefinition.set_format f (ItemDefinition.set_format g d)
  = ItemDefinition.set_format f d.
Proof. destruct d. reflexivity. Qed.

Section assign_facts.
Context {A : Type}.
Implicit Types (o : gmap string A) (k : string) (v w : A).

Lemma assign_cases k v o : assign k v o = o \/ assign k v o = <[k := v]> o.
Proof. unfold assign. destruct (o !! k); [auto |]. case_decide; auto. Qed.

Lemma assign_ordinary k v o : k <> "__proto__" -> assign k v o = <[k := v]> o.
Proof.
  intros H. unfold assign. destruct (o !! k); [reflexivity |].
  now rewrite decide_False.
Qed.

Lemma assign_own k v w o : o !! k = Some w -> assign k v o = <[k := v]> o.
Proof. intros H. unfold assign. now rewrite H. Qed.

Lemma assign_proto v o :
  o !! "__proto__" = None -> assign "__proto__" v o = o.
Proof. intros H. unfold assign. now rewrite H. Qed.

Lemma assign_id k v o : o !! k = Some v -> assign k v o = o.
Proof. intros H. rewrite (assign_own _ _ _ _ H). now apply insert_id. Qed.

Lemma assign_assign k v w o : assign k v (assign k w o) = assign k v o.
Proof.
  unfold assign at 2 3. destruct (o !! k) as [x |] eqn:E.
  - rewrite (assign_own k v w) by apply lookup_insert_eq.
    apply insert_insert_eq.
  - case_decide as Hk.
    + subst k. now apply assign_proto.
    + rewrite (assign_own k v w) by apply lookup_insert_eq.
      apply insert_insert_eq.
Qed.

Lemma delete_assign k v o : delete k (assign k v o) = delete k o.
Proof.
  destruct (assign_cases k v o) as [-> | ->];
    [reflexivity | apply delete_insert_eq].
Qed.

Lemma lookup_assign_ne k k' v o : k <> k' -> assign k v o !! k' = o !! k'.
Proof.
  intros H. destruct (assign_cases k v o) as [-> | ->];
    [reflexivity | now apply lookup_insert_ne].
Qed.

Lemma lookup_assign k v o x : assign k v o !! k = Some x -> x = v.
Proof.
  unfold assign. destruct (o !! k) eqn:E.
  - rewrite lookup_insert_eq. now intros [= <-].
  - case_decide.
    + rewrite E. discriminate.
    + rewrite lookup_insert_eq. now intros [= <-].
Qed.
End assign_facts.

Lemma saveCategory_rejected st :
  rejected (CategoryDefinition.key (categoryForm st))
           (CategoryDefinition.name (categoryForm st)) = true ->
  saveCategory st = st.
Proof. intros H. unfold saveCategory. now rewrite H. Qed.

Lemma saveCategory_accepted st :
  rejected (CategoryDefinition.key (categoryForm st))
           (CategoryDefinition.name (categoryForm st)) = false ->
  saveCategory st =
    mkState (assign (CategoryDefinition.key (categoryForm st))
                    (categoryForm st) (categories st))
            (itemDefinitions st) (selectedCategoryKey st)
            (isSidebarCollapsed st) false (isEditingItem st)
            (categoryForm st) (itemForm st).
Proof. intros H. unfold saveCategory. now rewrite H. Qed.

Lemma saveItem_rejected st :
  rejected (ItemDefinition.key (itemForm st))
           (ItemDefinition.name (itemForm st)) = true ->
  saveItem st = st.
Proof. intros H. unfold saveItem. now rewrite H. Qed.

Lemma saveItem_accepted st :
  rejected (ItemDefinition.key (itemForm st))
           (ItemDefinition.name (itemForm st)) = false ->
  saveItem st =
    let form' :=
      ItemDefinition.set_format
        (Some (generatedFormat (categories st) (itemForm st)))
        (itemForm st) in
    mkState (categories st)
            (assign (ItemDefinition.key (itemForm st)) form'
                    (itemDefinitions st))
            (selectedCategoryKey st)
            (isSidebarCollapsed st) (isEditingCategory st) false
            (categoryForm st) form'.
Proof.
  intros H. unfold saveItem. rewrite H. cbn zeta. rewrite snapshot_id.
  destruct (itemForm st). reflexivity.
Qed.

(** C5, as the code has it.  For both registries a save is accepted if and
    only if the draft's key and name are non-empty after [trim()], that is
    when each holds a character that is not white space.  Otherwise, and
    so whenever the key or the name is empty, the save is a silent no-op
    that leaves both registries, the draft and the rest of the state
    unchanged.  An accepted save with a key other than [__proto__] inserts
    or fully replaces the entry at the draft's (untrimmed) key and leaves
    the other registry alone. *)
Theorem save_accepted_iff_trimmed (st : State) :
  (Js.trim (CategoryDefinition.key (categoryForm st)) <> "" ->
   Js.trim (CategoryDefinition.name (categoryForm st)) <> "" ->
   CategoryDefinition.key (categoryForm st) <> "__proto__" ->
   categories (saveCategory st) =
     <[CategoryDefinition.key (categoryForm st) := categoryForm st]>
       (categories st)
   /\ itemDefinitions (saveCategory st) = itemDefinitions st
   /\ categoryForm (saveCategory st) = categoryForm st)
  /\ (Js.trim (CategoryDefinition.key (categoryForm st)) = ""
      \/ Js.trim (CategoryDefinition.name (categoryForm st)) = "" ->
      saveCategory st = st)
  /\ (CategoryDefinition.key (categoryForm st) = ""
      \/ CategoryDefinition.name (categoryForm st) = "" ->
      saveCategory st = st)
  /\ (Js.trim (ItemDefinition.key (itemForm st)) <> "" ->
      Js.trim (ItemDefinition.name (itemForm st)) <> "" ->
      ItemDefinition.key (itemForm st) <> "__proto__" ->
      itemDefinitions (saveItem st) =
        <[ItemDefinition.key (itemForm st) :=
            ItemDefinition.set_format
              (Some (generatedFormat (categories st) (itemForm st)))
              (itemForm st)]>
          (itemDefinitions st)
      /\ categories (saveItem st) = categories st)
  /\ (Js.trim (ItemDefinition.key (itemForm st)) = ""
      \/ Js.trim (ItemDefinition.name (itemForm st)) = "" ->
      saveItem st = st)
  /\ (ItemDefinition.key (itemForm st) = ""
      \/ ItemDefinition.name (itemForm st) = "" ->
      saveItem st = st).
Proof.
  repeat apply conj.
  - intros Hk Hn Hp.
    rewrite saveCategory_accepted by (apply rejected_false; auto).
    cbn. rewrite assign_ordinary by exact Hp. auto.
  - intros H. apply saveCategory_rejected, rejected_true, H.
  - intros H. apply saveCategory_rejected, rejected_empty, H.
  - intros Hk Hn Hp.
    rewrite saveItem_accepted by (apply rejected_false; auto).
    cbn. rewrite assign_ordinary by exact Hp. auto.
  - intros H. apply saveItem_rejected, rejected_true, H.
  - intros H. apply saveItem_rejected, rejected_empty, H.
Qed.

Lemma save_accepted_iff_trimmed_witness :
  (categories (saveCategory (sample_state cat_world item_hp)) !! "ST1"
   = Some cat_world
   /\ itemDefinitions (saveItem (sample_state cat_world item_hp)) !! "HP"
      = Some (ItemDefinition.set_format (Some "[{角色}^CV|HP::{value}]")
                                        item_hp))
  /\ (saveCategory (sample_state category_space_key item_hp)
      = sample_state category_space_key item_hp
      /\ saveItem (sample_state cat_world item_space_key)
         = sample_state cat_world item_space_key)
  /\ (saveCategory (sample_state
                      (CategoryDefinition.mk "" "分类" "folder" 0%Z shared)
                      item_hp)
      = sample_state (CategoryDefinition.mk "" "分类" "folder" 0%Z shared)
                     item_hp
      /\ saveItem (sample_state cat_world
                     (sample_item "" "CV" Single [] None))
         = sample_state cat_world (sample_item "" "CV" Single [] None)).
Proof.
  split; [split | split; split].
  - destruct (proj1 (save_accepted_iff_trimmed
                       (sample_state cat_world item_hp)))
      as (H & _); [discriminate | discriminate | discriminate |].
    rewrite H. reflexivity.
  - destruct (proj1 (proj2 (proj2 (proj2
                (save_accepted_iff_trimmed
                   (sample_state cat_world item_hp))))))
      as (H & _); [discriminate | discriminate | discriminate |].
    rewrite H. reflexivity.
  - apply (proj1 (proj2 (save_accepted_iff_trimmed
                           (sample_state category_space_key item_hp)))).
    left. reflexivity.
  - apply (proj1 (proj2 (proj2 (proj2 (proj2
             (save_accepted_iff_trimmed
                (sample_state cat_world item_space_key))))))).
    left. reflexivity.
  - apply (proj1 (proj2 (proj2 (save_accepted_iff_trimmed _)))).
    left. reflexivity.
  - apply (proj2 (proj2 (proj2 (proj2 (proj2
             (save_accepted_iff_trimmed _)))))).
    left. reflexivity.
Defined.

(** C5, counterexample.  A key of one space is non-empty, and so is the
    name, yet neither save is accepted: the state is unchanged and no
    entry appears at that key. *)
Lemma save_nonempty_counterexample :
  (CategoryDefinition.key category_space_key <> ""
   /\ CategoryDefinition.name category_space_key <> ""
   /\ saveCategory (sample_state category_space_key item_hp)
      = sample_state category_space_key item_hp
   /\ categories (saveCategory (sample_state category_space_key item_hp))
        !! CategoryDefinition.key category_space_key = None)
  /\ (ItemDefinition.key item_space_key <> ""
      /\ ItemDefinition.name item_space_key <> ""
      /\ saveItem (sample_state cat_world item_space_key)
         = sample_state cat_world item_space_key
      /\ itemDefinitions (saveItem (sample_state cat_world item_space_key))
           !! ItemDefinition.key item_space_key = None).
Proof. repeat split; (discriminate || reflexivity). Qed.

(** C6.  After an accepted item save, the entry stored at the draft's key
    has as its [format] the output of [generatedFormat] for the draft and
    the category registry at that moment; there is such an entry whenever
    the key is not [__proto__] (at that key the save may store none); and
    whatever [format] the incoming draft carried, the registry after the
    save is the same. *)
Theorem saveItem_format_fresh (st : State) :
  Js.trim (ItemDefinition.key (itemForm st)) <> "" ->
  Js.trim (ItemDefinition.name (itemForm st)) <> "" ->
  (forall entry,
      itemDefinitions (saveItem st) !! ItemDefinition.key (itemForm st)
      = Some entry ->
      ItemDefinition.format entry
      = Some (generatedFormat (categories st) (itemForm st)))
  /\ (ItemDefinition.key (itemForm st) <> "__proto__" ->
      exists entry,
        itemDefinitions (saveItem st) !! ItemDefinition.key (itemForm st)
        = Some entry
        /\ ItemDefinition.format entry
           = Some (generatedFormat (categories st) (itemForm st)))
  /\ (forall stale,
        itemDefinitions
          (saveItem
             (with_itemForm (ItemDefinition.set_format stale (itemForm st))
                            st))
        = itemDefinitions (saveItem st)).
Proof.
  intros Hk Hn.
  assert (Hr : rejected (ItemDefinition.key (itemForm st))
                        (ItemDefinition.name (itemForm st)) = false)
    by (apply rejected_false; auto).
  split; [| split].
  - intros entry. rewrite (saveItem_accepted _ Hr). cbn.
    intros ->%lookup_assign. destruct (itemForm st). reflexivity.
  - intros Hp. rewrite (saveItem_accepted _ Hr). cbn.
    rewrite assign_ordinary by exact Hp.
    eexists. split; [apply lookup_insert_eq |].
    destruct (itemForm st). reflexivity.
  - intros stale.
    rewrite (saveItem_accepted st Hr), saveItem_accepted.
    + cbn. rewrite generatedFormat_set_format, set_format_twice.
      destruct (itemForm st). reflexivity.
    + cbn. destruct (itemForm st). exact Hr.
Qed.

Lemma saveItem_format_fresh_witness :
  exists entry,
    itemDefinitions
      (saveItem
         (sample_state cat_world
            (ItemDefinition.set_format (Some "stale") item_hp))) !! "HP"
    = Some entry
    /\ ItemDefinition.format entry = Some "[{角色}^CV|HP::{value}]".
Proof.
  destruct (saveItem_format_fresh
              (sample_state cat_world
                 (ItemDefinition.set_format (Some "stale") item_hp)))
    as (_ & Hstored & _); [discriminate | discriminate |].
  destruct Hstored as (entry & Hl & Hf); [discriminate |].
  exists entry. split; [exact Hl | exact Hf].
Defined.

(** C8.  Saving is idempotent for both registries: saving twice in
    succession gives the state, and so the registries, that saving once
    gives; and so does typing the same definition [d] again before the
    second save. *)
Theorem save_idempotent (st : State) :
  saveCategory (saveCategory st) = saveCategory st
  /\ saveItem (saveItem st) = saveItem st
  /\ (forall c,
        categories
          (saveCategory
             (with_categoryForm c (saveCategory (with_categoryForm c st))))
        = categories (saveCategory (with_categoryForm c st)))
  /\ (forall d,
        itemDefinitions
          (saveItem (with_itemForm d (saveItem (with_itemForm d st))))
        = itemDefinitions (saveItem (with_itemForm d st))).
Proof.
  assert (HC : forall s, saveCategory (saveCategory s) = saveCategory s).
  { intros s.
    destruct (rejected (CategoryDefinition.key (categoryForm s))
                       (CategoryDefinition.name (categoryForm s))) eqn:Hr.
    - now rewrite !(saveCategory_rejected _ Hr).
    - rewrite (saveCategory_accepted _ Hr).
      rewrite saveCategory_accepted by exact Hr.
      cbn. now rewrite assign_assign. }
  assert (HI : forall s, saveItem (saveItem s) = saveItem s).
  { intros s.
    destruct (rejected (ItemDefinition.key (itemForm s))
                       (ItemDefinition.name (itemForm s))) eqn:Hr.
    - now rewrite !(saveItem_rejected _ Hr).
    - rewrite (saveItem_accepted _ Hr).
      rewrite saveItem_accepted by (destruct (itemForm s); exact Hr).
      cbn. rewrite generatedFormat_set_format, set_format_twice.
      destruct (itemForm s); cbn. now rewrite assign_assign. }
  split; [apply HC |]. split; [apply HI |]. split.
  - intros c. set (s := with_categoryForm c st).
    destruct (rejected (CategoryDefinition.key c)
                       (CategoryDefinition.name c)) eqn:Hr.
    + rewrite (saveCategory_rejected s) by exact Hr.
      unfold s. destruct st; cbn.
      now rewrite saveCategory_rejected by exact Hr.
    + rewrite (saveCategory_accepted s) by exact Hr.
      rewrite saveCategory_accepted by exact Hr.
      cbn. now rewrite assign_assign.
  - intros d. set (s := with_itemForm d st).
    destruct (rejected (ItemDefinition.key d) (ItemDefinition.name d))
      eqn:Hr.
    + rewrite (saveItem_rejected s) by exact Hr.
      unfold s. destruct st; cbn.
      now rewrite saveItem_rejected by exact Hr.
    + rewrite (saveItem_accepted s) by exact Hr.
      rewrite saveItem_accepted by exact Hr.
      cbn. now rewrite assign_assign.
Qed.

(** ** Deleting a category *)

Lemma saveCategory_cases st :
  selectedCategoryKey (saveCategory st) = selectedCategoryKey st
  /\ (categories (saveCategory st) = categories st
      \/ categories (saveCategory st) =
           <[CategoryDefinition.key (categoryForm st) := categoryForm st]>
             (categories st)).
Proof.
  destruct (rejected (CategoryDefinition.key (categoryForm st))
                     (CategoryDefinition.name (categoryForm st))) eqn:Hr.
  - rewrite saveCategory_rejected by exact Hr. auto.
  - rewrite (saveCategory_accepted _ Hr). split; [reflexivity |].
    apply assign_cases.
Qed.

Lemma deleteCategory_selection_ok confirmed key st :
  selection_ok st -> selection_ok (deleteCategory confirmed key st).
Proof.
  intros Hok. destruct confirmed; [| exact Hok].
  intros k. cbn. case_decide as Hsel; [discriminate |].
  intros Hk. rewrite lookup_delete_ne by congruence. now apply Hok.
Qed.

Lemma step_invariant st st' :
  step st st' ->
  keyed st /\ selection_ok st -> keyed st' /\ selection_ok st'.
Proof.
  intros Hstep [Hkeyed Hok]. destruct Hstep as [st | b key st | st | st k cat Hcat | st st' Hc Hs].
  - destruct (saveCategory_cases st) as [Hs [Hc | Hc]]; split.
    + intros k c. rewrite Hc. apply Hkeyed.
    + intros k. rewrite Hc, Hs. apply Hok.
    + intros k c. rewrite Hc, lookup_insert.
      case_decide; [congruence | apply Hkeyed].
    + intros k. rewrite Hc, Hs, lookup_insert.
      case_decide; [eauto | apply Hok].
  - split; [| now apply deleteCategory_selection_ok].
    destruct b; [| exact Hkeyed].
    intros k c. cbn. intros Hl.
    apply lookup_delete_Some in Hl as [_ Hl]. now apply Hkeyed.
  - split; [exact Hkeyed | intros k; discriminate].
  - split; [exact Hkeyed |]. intros k'. cbn. intros [= <-].
    rewrite (Hkeyed _ _ Hcat). eauto.
  - split.
    + intros k c. rewrite Hc. apply Hkeyed.
    + intros k. rewrite Hc, Hs. apply Hok.
Qed.

Lemma reachable_invariant st :
  reachable st -> keyed st /\ selection_ok st.
Proof.
  induction 1 as [st [Hc Hs] | st st' _ IH Hstep].
  - split.
    + intros k c. rewrite Hc, lookup_empty. discriminate.
    + intros k. rewrite Hs. discriminate.
  - exact (step_invariant _ _ Hstep IH).
Qed.

(** C7.  Once the operator confirms, [deleteCategory key] removes the entry
    at [key] from the category registry and nothing else, without error
    when [key] is absent (the registry is then unchanged); it clears the
    selected category filter exactly when the filter equals [key], so that
    a selection that referenced an existing entry or was null still does,
    as it does in every state the component reaches; and it leaves the item
    definition registry unchanged: an item whose [category] is [key] keeps
    it, now as a dangling reference. *)
Theorem deleteCategory_spec (key : string) (st : State) :
  categories (deleteCategory true key st) = delete key (categories st)
  /\ categories (deleteCategory true key st) !! key = None
  /\ (forall k, k <> key ->
        categories (deleteCategory true key st) !! k = categories st !! k)
  /\ (categories st !! key = None ->
      categories (deleteCategory true key st) = categories st)
  /\ (selectedCategoryKey st = Some key ->
      selectedCategoryKey (deleteCategory true key st) = None)
  /\ (selectedCategoryKey st <> Some key ->
      selectedCategoryKey (deleteCategory true key st)
      = selectedCategoryKey st)
  /\ (selection_ok st -> selection_ok (deleteCategory true key st))
  /\ (reachable st -> selection_ok (deleteCategory true key st))
  /\ itemDefinitions (deleteCategory true key st) = itemDefinitions st
  /\ (forall k d,
        itemDefinitions st !! k = Some d ->
        ItemDefinition.category d = key ->
        itemDefinitions (deleteCategory true key st) !! k = Some d
        /\ categories (deleteCategory true key st)
             !! ItemDefinition.category d = None).
Proof.
  repeat apply conj.
  - reflexivity.
  - apply lookup_delete_eq.
  - intros k Hk. now apply lookup_delete_ne.
  - apply delete_id.
  - intros H. cbn. now rewrite decide_True.
  - intros H. cbn. now rewrite decide_False.
  - apply deleteCategory_selection_ok.
  - intros H. apply deleteCategory_selection_ok.
    now apply reachable_invariant.
  - reflexivity.
  - intros k d Hl Hc. split; [exact Hl |]. rewrite Hc.
    apply lookup_delete_eq.
Qed.

Lemma deleteCategory_spec_witness :
  selectedCategoryKey (deleteCategory true "CP" (state_selected "CP")) = None
  /\ categories (deleteCategory true "CP" (state_selected "CP")) !! "CV"
     = Some cat_stats
  /\ (itemDefinitions (deleteCategory true "CP" (state_selected "CP")) !! "HP"
      = Some (sample_item "HP" "CP" Single [] None)
      /\ categories (deleteCategory true "CP" (state_selected "CP")) !! "CP"
         = None)
  /\ selection_ok (deleteCategory true "CP" (state_selected "CP"))
  /\ selectedCategoryKey (deleteCategory true "CV" (state_selected "CP"))
     = Some "CP"
  /\ categories (deleteCategory true "XX" (state_selected "CP"))
     = categories (state_selected "CP")
  /\ selection_ok
       (deleteCategory true "CP" (mkState ∅ ∅ None false false false
                                          cat_stats item_hp)).
Proof.
  pose proof (deleteCategory_spec "CP" (state_selected "CP"))
    as (_ & _ & Hother & _ & Hsel & _ & Hok & _ & _ & Hitems).
  pose proof (deleteCategory_spec "CV" (state_selected "CP"))
    as (_ & _ & _ & _ & _ & Hkeep & _).
  pose proof (deleteCategory_spec "XX" (state_selected "CP"))
    as (_ & _ & _ & Habsent & _).
  pose proof (deleteCategory_spec "CP"
                (mkState ∅ ∅ None false false false cat_stats item_hp))
    as (_ & _ & _ & _ & _ & _ & _ & Hreach & _).
  split; [apply Hsel; reflexivity |].
  split; [rewrite Hother; [reflexivity | discriminate] |].
  split.
  { apply (Hitems "HP" (sample_item "HP" "CP" Single [] None));
      reflexivity. }
  split.
  { apply Hok. intros k [= <-]. eexists. reflexivity. }
  split; [apply Hkeep; discriminate |].
  split; [apply Habsent; reflexivity |].
  apply Hreach. apply reachable_initial. split; reflexivity.
Defined.

(** ** Arrays *)

Section array_facts.
Context {A : Type}.
Implicit Types (a : JsArray.t A) (v : option A) (i j : Z).

Lemma array_length_nonneg a : (0 <= JsArray.length a)%Z.
Proof. unfold JsArray.length. lia. Qed.

Lemma array_get_set_eq a i v : JsArray.get (JsArray.set a i v) i = v.
Proof.
  unfold JsArray.get, JsArray.set.
  destruct (i <? 0)%Z eqn:Hneg; cbn.
  - now rewrite lookup_insert_eq.
  - apply Z.ltb_ge in Hneg.
    destruct (i <? JsArray.length a)%Z eqn:Hin; cbn.
    + apply Z.ltb_lt in Hin. unfold JsArray.length in Hin.
      rewrite list_lookup_insert_eq by lia. reflexivity.
    + apply Z.ltb_ge in Hin. unfold JsArray.length in *.
      rewrite lookup_app_r by lia.
      rewrite lookup_app_r by (rewrite length_replicate; lia).
      rewrite length_replicate.
      replace (Z.to_nat i - length (JsArray.elems a)
               - Z.to_nat (i - Z.of_nat (length (JsArray.elems a))))%nat
        with 0%nat by lia.
      reflexivity.
Qed.

Lemma array_get_set_ne a i j v :
  i <> j -> JsArray.get (JsArray.set a i v) j = JsArray.get a j.
Proof.
  intros Hne. unfold JsArray.get, JsArray.set.
  destruct (i <? 0)%Z eqn:Hi; cbn.
  { destruct (j <? 0)%Z; [| reflexivity].
    now rewrite lookup_insert_ne. }
  apply Z.ltb_ge in Hi.
  destruct (i <? JsArray.length a)%Z eqn:Hin; cbn.
  { destruct (j <? 0)%Z eqn:Hj; [reflexivity |].
    apply Z.ltb_ge in Hj. rewrite list_lookup_insert_ne by lia.
    reflexivity. }
  apply Z.ltb_ge in Hin. unfold JsArray.length in *.
  destruct (j <? 0)%Z eqn:Hj; [reflexivity |].
  apply Z.ltb_ge in Hj.
  destruct (decide (Z.to_nat j < length (JsArray.elems a))%nat) as [Hlt | Hge].
  { now rewrite lookup_app_l by exact Hlt. }
  rewrite (lookup_ge_None_2 (JsArray.elems a)) by lia.
  rewrite lookup_app_r by lia.
  destruct (decide (Z.to_nat j < Z.to_nat i)%nat) as [Hlow | Hhigh].
  - rewrite lookup_app_l by (rewrite length_replicate; lia).
    rewrite lookup_replicate_2 by lia. reflexivity.
  - rewrite lookup_ge_None_2; [reflexivity |].
    rewrite length_app, length_replicate. cbn. lia.
Qed.

Lemma array_get_of_list (l : list A) (n : nat) :
  JsArray.get (JsArray.of_list l) (Z.of_nat n) = l !! n.
Proof.
  unfold JsArray.get, JsArray.of_list. cbn.
  replace (Z.of_nat n <? 0)%Z with false by (symmetry; apply Z.ltb_ge; lia).
  rewrite Nat2Z.id, list_lookup_fmap. now destruct (l !! n).
Qed.

Lemma array_length_of_list (l : list A) :
  JsArray.length (JsArray.of_list l) = Z.of_nat (length l).
Proof. unfold JsArray.length, JsArray.of_list. cbn. now rewrite length_fmap. Qed.

Lemma array_set_of_list (l : list A) (n : nat) (x : A) :
  (n < length l)%nat ->
  JsArray.set (JsArray.of_list l) (Z.of_nat n) (Some x)
  = JsArray.of_list (<[n := x]> l).
Proof.
  intros Hn. unfold JsArray.set.
  replace (Z.of_nat n <? 0)%Z with false by (symmetry; apply Z.ltb_ge; lia).
  rewrite array_length_of_list.
  replace (Z.of_nat n <? Z.of_nat (length l))%Z with true
    by (symmetry; apply Z.ltb_lt; lia).
  unfold JsArray.of_list. cbn. now rewrite Nat2Z.id, list_fmap_insert.
Qed.
End array_facts.

(** ** The parts editor *)

Lemma movePart_out_of_bounds index direction parts :
  (index + direction < 0 \/ JsArray.length parts <= index + direction)%Z ->
  movePart index direction parts = parts.
Proof.
  intros H. unfold movePart.
  destruct (index + direction <? 0)%Z eqn:H1; [reflexivity |].
  destruct (JsArray.length parts <=? index + direction)%Z eqn:H2;
    [reflexivity |].
  apply Z.ltb_ge in H1. apply Z.leb_gt in H2. lia.
Qed.

Lemma movePart_in_bounds index direction parts :
  (0 <= index + direction < JsArray.length parts)%Z ->
  movePart index direction parts =
    JsArray.set
      (JsArray.set parts index (JsArray.get parts (index + direction)))
      (index + direction) (JsArray.get parts index).
Proof.
  intros H. unfold movePart.
  replace (index + direction <? 0)%Z with false
    by (symmetry; apply Z.ltb_ge; lia).
  replace (JsArray.length parts <=? index + direction)%Z with false
    by (symmetry; apply Z.leb_gt; lia).
  reflexivity.
Qed.

(** C9.  [movePart index direction] exchanges what the array holds at
    [index] and at [index + direction] and leaves every other position as
    it was, whenever [index + direction] is inside the array; on a typed
    parts list with both positions inside it, the result is that list with
    the two parts swapped.  When [index + direction] is below 0 or at or
    after the length, nothing happens and the parts are unchanged; so
    [movePart 0 (-1)] changes nothing.  This holds for every [direction],
    and so for -1 and +1. *)
Theorem movePart_spec (index direction : Z)
    (parts : JsArray.t ItemDefinitionPart.t) :
  ((index + direction < 0 \/ JsArray.length parts <= index + direction)%Z ->
   movePart index direction parts = parts)
  /\ ((0 <= index + direction < JsArray.length parts)%Z ->
      JsArray.get (movePart index direction parts) index
      = JsArray.get parts (index + direction)
      /\ JsArray.get (movePart index direction parts) (index + direction)
         = JsArray.get parts index
      /\ (forall j, j <> index -> j <> (index + direction)%Z ->
            JsArray.get (movePart index direction parts) j
            = JsArray.get parts j))
  /\ (forall (l : list ItemDefinitionPart.t) (i j : nat) p q,
        parts = JsArray.of_list l ->
        index = Z.of_nat i -> (index + direction)%Z = Z.of_nat j ->
        l !! i = Some p -> l !! j = Some q ->
        movePart index direction parts
        = JsArray.of_list (<[j := p]> (<[i := q]> l)))
  /\ movePart 0 (-1) parts = parts.
Proof.
  split; [apply movePart_out_of_bounds |]. split; [| split].
  - intros Hin. rewrite (movePart_in_bounds _ _ _ Hin). split; [| split].
    + destruct (decide (index + direction = index)%Z) as [He | Hne].
      * rewrite He. apply array_get_set_eq.
      * rewrite array_get_set_ne by exact Hne. apply array_get_set_eq.
    + apply array_get_set_eq.
    + intros j Hi Hn. rewrite !array_get_set_ne by congruence. reflexivity.
  - intros l i j p q -> Hi Hj Hp Hq.
    assert (Hli : (i < length l)%nat) by (apply lookup_lt_is_Some; eauto).
    assert (Hlj : (j < length l)%nat) by (apply lookup_lt_is_Some; eauto).
    rewrite movePart_in_bounds
      by (rewrite array_length_of_list; lia).
    rewrite Hj, Hi, !array_get_of_list, Hp, Hq.
    rewrite array_set_of_list by exact Hli.
    rewrite array_set_of_list by (rewrite length_insert; exact Hlj).
    reflexivity.
  - apply movePart_out_of_bounds. left. lia.
Qed.

Lemma movePart_spec_witness :
  movePart 0 1 three_parts
  = JsArray.of_list [sample_part "b"; sample_part "a"; sample_part "c"]
  /\ movePart 2 1 three_parts = three_parts
  /\ JsArray.get (movePart 2 (-1) three_parts) 1 = Some (sample_part "c").
Proof.
  pose proof (movePart_spec 0 1 three_parts) as (_ & _ & Hswap & _).
  pose proof (movePart_spec 2 1 three_parts) as (Hout & _).
  pose proof (movePart_spec 2 (-1) three_parts) as (_ & Hin & _).
  split; [| split].
  - apply (Hswap [sample_part "a"; sample_part "b"; sample_part "c"]
                 0%nat 1%nat (sample_part "a") (sample_part "b"));
      reflexivity.
  - apply Hout. right. cbv. discriminate.
  - destruct Hin as (_ & Hn & _); [split; cbv; congruence |].
    exact Hn.
Defined.

Lemma removePart_elems index (parts : JsArray.t ItemDefinitionPart.t) :
  JsArray.elems (removePart index parts) =
    let len := JsArray.length parts in
    let actualStart :=
      if (index <? 0)%Z then Z.max (len + index) 0 else Z.min index len in
    (take (Z.to_nat actualStart) (JsArray.elems parts)
       ++ drop (Z.to_nat (actualStart + Z.min 1 (len - actualStart)))
               (JsArray.elems parts))%list.
Proof. reflexivity. Qed.

Lemma removePart_props index (parts : JsArray.t ItemDefinitionPart.t) :
  JsArray.props (removePart index parts) = JsArray.props parts.
Proof. reflexivity. Qed.

Lemma array_eq (a b : JsArray.t ItemDefinitionPart.t) :
  JsArray.elems a = JsArray.elems b -> JsArray.props a = JsArray.props b ->
  a = b.
Proof. destruct a, b. cbn. now intros -> ->. Qed.

(** C10.  [removePart] is defined on every integer index.  At or beyond
    the length it changes nothing.  A negative index counts from the end,
    as [splice] does: [-k] with [k] at most the length deletes the [k]-th
    part from the end, and below that the first part; so on a non-empty
    parts list [removePart (-1)] removes the last part.  An index inside
    the array deletes the part there. *)
Theorem removePart_spec (index : Z) (parts : JsArray.t ItemDefinitionPart.t) :
  ((JsArray.length parts <= index)%Z -> removePart index parts = parts)
  /\ ((- JsArray.length parts <= index < 0)%Z ->
      JsArray.elems (removePart index parts)
      = delete (Z.to_nat (JsArray.length parts + index))
               (JsArray.elems parts))
  /\ ((index < - JsArray.length parts)%Z ->
      JsArray.elems (removePart index parts)
      = drop 1 (JsArray.elems parts))
  /\ ((0 <= index < JsArray.length parts)%Z ->
      JsArray.elems (removePart index parts)
      = delete (Z.to_nat index) (JsArray.elems parts))
  /\ JsArray.props (removePart index parts) = JsArray.props parts
  /\ (forall (l : list ItemDefinitionPart.t) (p : ItemDefinitionPart.t),
        removePart (-1) (JsArray.of_list (l ++ [p])%list) = JsArray.of_list l).
Proof.
  pose proof (array_length_nonneg parts) as Hlen.
  repeat apply conj.
  - intros H. apply array_eq; [| reflexivity].
    rewrite removePart_elems. cbn zeta.
    replace (index <? 0)%Z with false by (symmetry; apply Z.ltb_ge; lia).
    rewrite Z.min_r by lia. rewrite Z.sub_diag. rewrite Z.min_r by lia.
    rewrite Z.add_0_r. unfold JsArray.length.
    rewrite Nat2Z.id, take_ge, drop_ge by lia. apply app_nil_r.
  - intros H. rewrite removePart_elems. cbn zeta.
    replace (index <? 0)%Z with true by (symmetry; apply Z.ltb_lt; lia).
    rewrite Z.max_l by lia. rewrite Z.min_l by lia.
    rewrite delete_take_drop. do 2 f_equal. lia.
  - intros H. rewrite removePart_elems. cbn zeta.
    replace (index <? 0)%Z with true by (symmetry; apply Z.ltb_lt; lia).
    rewrite Z.max_r by lia. rewrite Z.sub_0_r, Z.add_0_l.
    change (Z.to_nat 0) with 0%nat. rewrite take_0. cbn [app].
    unfold JsArray.length.
    destruct (JsArray.elems parts) as [| x l].
    + now rewrite !drop_nil.
    + cbn [length]. rewrite Z.min_l by lia. reflexivity.
  - intros H. rewrite removePart_elems. cbn zeta.
    replace (index <? 0)%Z with false by (symmetry; apply Z.ltb_ge; lia).
    rewrite Z.min_l by lia. rewrite Z.min_l by lia.
    rewrite delete_take_drop. do 2 f_equal. lia.
  - reflexivity.
  - intros l p. apply array_eq; [| reflexivity].
    rewrite removePart_elems, array_length_of_list. cbn zeta.
    rewrite length_app. cbn [length JsArray.of_list JsArray.elems].
    replace (-1 <? 0)%Z with true by reflexivity.
    rewrite Z.max_l by lia. rewrite Z.min_l by lia.
    rewrite fmap_app.
    replace (Z.to_nat (Z.of_nat (length l + 1) + -1)) with (length (Some <$> l))
      by (rewrite length_fmap; lia).
    rewrite take_app_length.
    rewrite drop_ge by (rewrite length_app, !length_fmap; cbn; lia).
    apply app_nil_r.
Qed.

Lemma removePart_spec_witness :
  removePart 3 three_parts = three_parts
  /\ JsArray.elems (removePart (-2) three_parts)
     = [Some (sample_part "a"); Some (sample_part "c")]
  /\ JsArray.elems (removePart (-7) three_parts)
     = [Some (sample_part "b"); Some (sample_part "c")]
  /\ JsArray.elems (removePart 0 three_parts)
     = [Some (sample_part "b"); Some (sample_part "c")].
Proof.
  pose proof (removePart_spec 3 three_parts) as (Hge & _).
  pose proof (removePart_spec (-2) three_parts) as (_ & Hneg & _).
  pose proof (removePart_spec (-7) three_parts) as (_ & _ & Hlow & _).
  pose proof (removePart_spec 0 three_parts) as (_ & _ & _ & Hin & _).
  split; [| split; [| split]].
  - apply Hge. cbv. discriminate.
  - rewrite Hneg; [reflexivity | split; cbv; congruence].
  - rewrite Hlow; [reflexivity | reflexivity].
  - rewrite Hin; [reflexivity | split; cbv; congruence].
Defined.

(** * Further properties of the component *)

(** ** Saving, then deleting *)

Lemma saveCategory_categories st :
  categories (saveCategory st) = categories st
  \/ categories (saveCategory st)
     = <[CategoryDefinition.key (categoryForm st) := categoryForm st]>
         (categories st).
Proof. destruct (saveCategory_cases st) as [_ [H | H]]; auto. Qed.

Lemma saveItem_itemDefinitions st :
  itemDefinitions (saveItem st) = itemDefinitions st
  \/ exists entry,
      itemDefinitions (saveItem st)
      = <[ItemDefinition.key (itemForm st) := entry]> (itemDefinitions st).
Proof.
  destruct (rejected (ItemDefinition.key (itemForm st))
                     (ItemDefinition.name (itemForm st))) eqn:Hr.
  - left. now rewrite saveItem_rejected.
  - rewrite (saveItem_accepted _ Hr). cbn.
    destruct (assign_cases (ItemDefinition.key (itemForm st))
                (ItemDefinition.set_format
                   (Some (generatedFormat (categories st) (itemForm st)))
                   (itemForm st))
                (itemDefinitions st)) as [-> | ->]; eauto.
Qed.

(** X1.  Deleting, with the dialog confirmed, the key of the draft that
    was just saved leaves the registry as the registry before the save
    without that key, whether the save was accepted or not; when the key
    was not in the registry before, the registry is back to what it was.
    This holds for the categories and for the items. *)
Theorem delete_after_save (st : State) :
  categories
    (deleteCategory true (CategoryDefinition.key (categoryForm st))
                    (saveCategory st))
  = delete (CategoryDefinition.key (categoryForm st)) (categories st)
  /\ itemDefinitions
       (deleteItem true (ItemDefinition.key (itemForm st)) (saveItem st))
     = delete (ItemDefinition.key (itemForm st)) (itemDefinitions st)
  /\ (categories st !! CategoryDefinition.key (categoryForm st) = None ->
      categories
        (deleteCategory true (CategoryDefinition.key (categoryForm st))
                        (saveCategory st))
      = categories st)
  /\ (itemDefinitions st !! ItemDefinition.key (itemForm st) = None ->
      itemDefinitions
        (deleteItem true (ItemDefinition.key (itemForm st)) (saveItem st))
      = itemDefinitions st).
Proof.
  assert (HC : categories
                 (deleteCategory true
                    (CategoryDefinition.key (categoryForm st))
                    (saveCategory st))
               = delete (CategoryDefinition.key (categoryForm st))
                        (categories st)).
  { cbn. destruct (saveCategory_categories st) as [-> | ->];
      [reflexivity | apply delete_insert_eq]. }
  assert (HI : itemDefinitions
                 (deleteItem true (ItemDefinition.key (itemForm st))
                             (saveItem st))
               = delete (ItemDefinition.key (itemForm st))
                        (itemDefinitions st)).
  { cbn. destruct (saveItem_itemDefinitions st) as [-> | [e ->]];
      [reflexivity | apply delete_insert_eq]. }
  split; [exact HC |]. split; [exact HI |]. split.
  - intros H. rewrite HC. now apply delete_id.
  - intros H. rewrite HI. now apply delete_id.
Qed.

Lemma delete_after_save_witness :
  categories
    (deleteCategory true "ST2"
       (saveCategory
          (sample_state
             (CategoryDefinition.mk "ST2" "地点" "folder" 2%Z shared)
             item_hp)))
  = sample_categories
  /\ itemDefinitions
       (deleteItem true "HP" (saveItem (sample_state cat_world item_hp)))
     = ∅.
Proof.
  split.
  - apply (proj1 (proj2 (proj2
             (delete_after_save
                (sample_state
                   (CategoryDefinition.mk "ST2" "地点" "folder" 2%Z shared)
                   item_hp))))).
    reflexivity.
  - apply (proj2 (proj2 (proj2
             (delete_after_save (sample_state cat_world item_hp))))).
    reflexivity.
Defined.

(** ** What the format reads *)

Lemma length_part_keys d : length (part_keys d) = length (ItemDefinition.parts d).
Proof. unfold part_keys. apply length_fmap. Qed.

Lemma wrapped_part_keys d :
  wrapped d = (fun k => "{" +:+ k +:+ "}") <$> part_keys d.
Proof.
  unfold wrapped, part_keys. rewrite <- list_fmap_compose. reflexivity.
Qed.

Lemma valuePart_unfold d :
  valuePart d =
    if (length (ItemDefinition.parts d) =? 0)%nat
    then "{" +:+ ItemDefinition.key d +:+ "}"
    else
      match ItemDefinition.entry_type d with
      | Single => Js.join (ItemDefinition.separator d) (wrapped d)
      | List =>
          (if (1 <? length (ItemDefinition.parts d))%nat
           then Js.join
                  (Js.opt_or_else (ItemDefinition.secondary_separator d) "@")
                  (wrapped d)
           else "{" +:+ match ItemDefinition.parts d !! 0%nat with
                        | Some p => Js.or_else (ItemDefinitionPart.key p) "item"
                        | None => "item"
                        end +:+ "}")
          +:+ ItemDefinition.separator d +:+ "..."
      end.
Proof. reflexivity. Qed.

Lemma valuePart_reads d d' :
  ItemDefinition.key d = ItemDefinition.key d' ->
  ItemDefinition.entry_type d = ItemDefinition.entry_type d' ->
  ItemDefinition.separator d = ItemDefinition.separator d' ->
  Js.opt_or_else (ItemDefinition.secondary_separator d) "@"
  = Js.opt_or_else (ItemDefinition.secondary_separator d') "@" ->
  part_keys d = part_keys d' ->
  valuePart d = valuePart d'.
Proof.
  intros Hk He Hs H2 Hp.
  assert (Hw : wrapped d = wrapped d') by (now rewrite !wrapped_part_keys, Hp).
  assert (Hl : length (ItemDefinition.parts d)
               = length (ItemDefinition.parts d'))
    by (now rewrite <- !length_part_keys, Hp).
  assert (H0 : ItemDefinitionPart.key <$> (ItemDefinition.parts d !! 0%nat)
               = ItemDefinitionPart.key <$> (ItemDefinition.parts d' !! 0%nat)).
  { rewrite <- !list_lookup_fmap. exact (f_equal (fun l => l !! 0%nat) Hp). }
  rewrite !valuePart_unfold, Hl, Hk, He, Hs, H2, Hw.
  destruct (ItemDefinition.parts d !! 0%nat),
           (ItemDefinition.parts d' !! 0%nat); cbn in H0; try discriminate.
  - injection H0 as ->. reflexivity.
  - reflexivity.
Qed.

(** X2.  The format reads the draft's key, category, entry type and
    separator, its secondary separator up to the ["@"] default, the keys
    of its parts, and, of the registry, the scope of the draft's category:
    two drafts and two registries that agree on these give the same
    format, whatever their names, icons, descriptions, part labels, data
    types and validations, and whatever else the registries hold. *)
Theorem generatedFormat_reads categories categories'
    (d d' : ItemDefinition.t) :
  ItemDefinition.key d = ItemDefinition.key d' ->
  ItemDefinition.category d = ItemDefinition.category d' ->
  ItemDefinition.entry_type d = ItemDefinition.entry_type d' ->
  ItemDefinition.separator d = ItemDefinition.separator d' ->
  Js.opt_or_else (ItemDefinition.secondary_separator d) "@"
  = Js.opt_or_else (ItemDefinition.secondary_separator d') "@" ->
  part_keys d = part_keys d' ->
  CategoryDefinition.scope <$> categories !! ItemDefinition.category d
  = CategoryDefinition.scope <$> categories' !! ItemDefinition.category d ->
  generatedFormat categories d = generatedFormat categories' d'.
Proof.
  intros Hk Hc He Hs H2 Hp Hscope.
  unfold generatedFormat.
  rewrite <- (valuePart_reads d d' Hk He Hs H2 Hp), <- Hk, <- Hc.
  replace (scopeToken categories' (ItemDefinition.category d))
    with (scopeToken categories (ItemDefinition.category d));
    [reflexivity |].
  unfold scopeToken.
  destruct (categories !! ItemDefinition.category d),
           (categories' !! ItemDefinition.category d);
    cbn in Hscope; try discriminate; [| reflexivity].
  injection Hscope as ->. reflexivity.
Qed.

Lemma generatedFormat_reads_witness :
  generatedFormat
    (<["CV" := CategoryDefinition.mk "CV" "属性" "star" 9%Z character]> ∅)
    (ItemDefinition.mk "HP" "生命值" (Some "heart") "CV" List
       [ItemDefinitionPart.mk "current" "当前" DT_number None;
        ItemDefinitionPart.mk "max" "上限" DT_number None]
       "|" None (Some "bar") None (Some "stale") None)
  = generatedFormat sample_categories
      (sample_item "HP" "CV" List [sample_part "current"; sample_part "max"]
                   (Some "")).
Proof.
  apply generatedFormat_reads; reflexivity.
Defined.

Lemma valuePart_retarget category key d :
  ItemDefinition.parts d <> [] ->
  valuePart (retarget category key d) = valuePart d.
Proof.
  intros H. rewrite !valuePart_unfold. unfold wrapped. cbn.
  destruct (ItemDefinition.parts d); [congruence | reflexivity].
Qed.

(** X3.  Keys are put into the format as they are, with nothing escaped:
    for a draft with parts, the category [a|b] with the item key [c] and
    the category [a] with the item key [b|c] give the same format when
    both categories have the same scope token (as when neither is in the
    registry).  The format alone does not tell the two apart. *)
Theorem generatedFormat_not_escaped categories (d : ItemDefinition.t)
    (a b c : string) :
  a <> "" -> c <> "" ->
  ItemDefinition.parts d <> [] ->
  scopeToken categories (a +:+ "|" +:+ b) = scopeToken categories a ->
  generatedFormat categories (retarget (a +:+ "|" +:+ b) c d)
  = generatedFormat categories (retarget a (b +:+ "|" +:+ c) d).
Proof.
  intros Ha Hc Hp Hs.
  rewrite !generatedFormat_framed; cbn;
    try (destruct a; [congruence | discriminate]);
    try (destruct b; discriminate);
    try exact Hc.
  unfold framed. cbn. rewrite Hs, !valuePart_retarget by exact Hp.
  now rewrite !append_assoc.
Qed.

Lemma generatedFormat_not_escaped_witness :
  generatedFormat sample_categories (retarget "背包|武器" "剑" item_hp)
  = generatedFormat sample_categories (retarget "背包" "武器|剑" item_hp).
Proof.
  apply (generatedFormat_not_escaped sample_categories item_hp
           "背包" "武器" "剑");
    (discriminate || reflexivity).
Defined.

Lemma filled_nonempty (s : string) : filled s -> s <> "".
Proof. intros H ->. apply H, trim_empty. Qed.

Lemma framed_nonempty categories d v : framed categories d v <> "".
Proof. discriminate. Qed.

(** X4.  A save does not ask for a category.  An accepted item save
    under a key other than [__proto__] stores the empty string as the
    entry's format exactly when the draft's category is empty; with a
    category the stored format is the bracketed one. *)
Theorem saveItem_without_category (st : State) :
  filled (ItemDefinition.key (itemForm st)) ->
  filled (ItemDefinition.name (itemForm st)) ->
  ItemDefinition.key (itemForm st) <> "__proto__" ->
  exists entry,
    itemDefinitions (saveItem st) !! ItemDefinition.key (itemForm st)
    = Some entry
    /\ (ItemDefinition.format entry = Some ""
        <-> ItemDefinition.category (itemForm st) = "")
    /\ (ItemDefinition.category (itemForm st) <> "" ->
        ItemDefinition.format entry
        = Some (framed (categories st) (itemForm st)
                       (valuePart (itemForm st)))).
Proof.
  intros Hk Hn Hp.
  assert (Hr : rejected (ItemDefinition.key (itemForm st))
                        (ItemDefinition.name (itemForm st)) = false)
    by (apply rejected_false; auto).
  rewrite (saveItem_accepted _ Hr). cbn.
  rewrite assign_ordinary by exact Hp. eexists.
  split; [apply lookup_insert_eq |].
  apply filled_nonempty in Hk.
  destruct (itemForm st) as [key name icon category et parts sep sec ui it f ds];
    cbn in *. split; [split |].
  - intros [= H]. destruct category as [| x category]; [reflexivity |].
    rewrite generatedFormat_framed in H by (cbn; congruence).
    now apply framed_nonempty in H.
  - intros ->. now rewrite generatedFormat_blocked by (right; reflexivity).
  - intros Hc. now rewrite generatedFormat_framed.
Qed.

Lemma saveItem_without_category_witness :
  exists entry,
    itemDefinitions
      (saveItem (sample_state cat_world
                   (sample_item "HP" "" Single [sample_part "value"] None)))
      !! "HP" = Some entry
    /\ ItemDefinition.format entry = Some "".
Proof.
  destruct (saveItem_without_category
              (sample_state cat_world
                 (sample_item "HP" "" Single [sample_part "value"] None)))
    as (entry & Hl & Hf & _); [discriminate | discriminate | discriminate |].
  exists entry. split; [exact Hl |]. apply Hf. reflexivity.
Defined.

(** X5.  Once a category is deleted, a draft that still references it is
    formatted with the character token ["{角色}"], whatever the scope of
    the category was; the entries already stored keep the format they were
    saved with. *)
Theorem generatedFormat_after_deleteCategory (st : State)
    (d : ItemDefinition.t) :
  ItemDefinition.key d <> "" -> ItemDefinition.category d <> "" ->
  generatedFormat
    (categories (deleteCategory true (ItemDefinition.category d) st)) d
  = "[" +:+ "{角色}" +:+ "^" +:+ ItemDefinition.category d +:+ "|"
        +:+ ItemDefinition.key d +:+ "::" +:+ valuePart d +:+ "]"
  /\ (forall k entry,
        itemDefinitions st !! k = Some entry ->
        exists entry',
          itemDefinitions (deleteCategory true (ItemDefinition.category d) st)
            !! k = Some entry'
          /\ ItemDefinition.format entry' = ItemDefinition.format entry).
Proof.
  intros Hk Hc. split.
  - rewrite generatedFormat_framed by assumption. unfold framed.
    rewrite scopeToken_character; [reflexivity |].
    left. cbn. apply lookup_delete_eq.
  - intros k entry H. exists entry. split; [exact H | reflexivity].
Qed.

Lemma generatedFormat_after_deleteCategory_witness :
  generatedFormat sample_categories item_weather = "[ST^ST1|天气::{天气}]"
  /\ generatedFormat
       (categories
          (deleteCategory true "ST1" (sample_state cat_world item_weather)))
       item_weather
     = "[{角色}^ST1|天气::{天气}]".
Proof.
  split; [reflexivity |].
  apply (proj1 (generatedFormat_after_deleteCategory
                  (sample_state cat_world item_weather) item_weather
                  ltac:(discriminate) ltac:(discriminate))).
Defined.

(** ** The computed lists *)

Section sorting.
Context {A : Type} (cmp : A -> A -> Z).

Lemma sort_insert_perm x l : sort_insert cmp x l ≡ₚ x :: l.
Proof.
  induction l as [| y l IH]; cbn; [reflexivity |].
  destruct (cmp x y <=? 0)%Z; [reflexivity |].
  rewrite IH. apply Permutation_swap.
Qed.

Lemma Array_sort_perm l : Array_sort cmp l ≡ₚ l.
Proof.
  induction l as [| x l IH]; cbn; [reflexivity |].
  rewrite sort_insert_perm. now rewrite IH.
Qed.
End sorting.

Lemma ascending_cons x l :
  ascending (x :: l) <->
  (forall b, b ∈ l ->
     (CategoryDefinition.order x <= CategoryDefinition.order b)%Z)
  /\ ascending l.
Proof.
  split.
  - intros H. split.
    + intros b Hb. apply list_elem_of_lookup in Hb as [j Hj].
      apply (H 0%nat (S j) x b); [lia | reflexivity | exact Hj].
    + intros i j a b Hij Hi Hj. apply (H (S i) (S j)); [lia | exact Hi | exact Hj].
  - intros [Hx Hl] i j a b Hij Hi Hj.
    destruct j as [| j]; [lia |]. cbn in Hj.
    destruct i as [| i]; cbn in Hi.
    + injection Hi as <-. apply Hx. apply list_elem_of_lookup. eauto.
    + apply (Hl i j); [lia | exact Hi | exact Hj].
Qed.

Lemma sort_insert_ascending x l :
  ascending l -> ascending (sort_insert by_order x l).
Proof.
  induction l as [| y l IH]; intros Hl; cbn.
  - apply ascending_cons. split; [| exact Hl].
    intros b Hb. inversion Hb.
  - apply ascending_cons in Hl as [Hy Hl]. unfold by_order at 1.
    destruct (_ <=? 0)%Z eqn:Hc.
    + apply Z.leb_le in Hc. apply ascending_cons. split.
      * intros b Hb. apply elem_of_cons in Hb as [-> | Hb]; [lia |].
        specialize (Hy b Hb). lia.
      * apply ascending_cons. auto.
    + apply Z.leb_gt in Hc. apply ascending_cons. split; [| auto].
      intros b Hb. rewrite sort_insert_perm in Hb.
      apply elem_of_cons in Hb as [-> | Hb]; [lia | auto].
Qed.

Lemma sortedCategories_ascending l : ascending (sortedCategories l).
Proof.
  induction l as [| x l IH]; cbn.
  - intros i j a b _ Hi. discriminate.
  - now apply sort_insert_ascending.
Qed.

Lemma sort_insert_weight (w : Z) x l :
  filter (fun c => CategoryDefinition.order c = w) (sort_insert by_order x l)
  = filter (fun c => CategoryDefinition.order c = w) (x :: l).
Proof.
  induction l as [| y l IH]; cbn [sort_insert]; [reflexivity |].
  unfold by_order at 1. destruct (_ <=? 0)%Z eqn:Hc; [reflexivity |].
  apply Z.leb_gt in Hc. rewrite filter_cons, IH.
  rewrite !(filter_cons _ x), (filter_cons _ y).
  repeat case_decide; try reflexivity. lia.
Qed.

Lemma sortedCategories_weight (w : Z) l :
  filter (fun c => CategoryDefinition.order c = w) (sortedCategories l)
  = filter (fun c => CategoryDefinition.order c = w) l.
Proof.
  induction l as [| x l IH]; [reflexivity |].
  change (sortedCategories (x :: l))
    with (sort_insert by_order x (sortedCategories l)).
  rewrite sort_insert_weight, !filter_cons, IH. reflexivity.
Qed.

Lemma enumerates_elem_of {A : Type} (m : gmap string A) (l : list A) x :
  enumerates m l -> (x ∈ l <-> stored m x).
Proof.
  intros H. rewrite H. unfold Object_values, stored.
  rewrite list_elem_of_fmap. split.
  - intros ([k y] & -> & Hin). exists k. now apply elem_of_map_to_list.
  - intros [k Hk]. exists (k, x). split; [reflexivity |].
    now apply elem_of_map_to_list.
Qed.

Lemma enumerates_length {A : Type} (m : gmap string A) (l : list A) :
  enumerates m l -> length l = size m.
Proof.
  intros H. rewrite H. unfold Object_values.
  now rewrite length_fmap, length_map_to_list.
Qed.

Lemma Object_values_enumerates {A : Type} (m : gmap string A) :
  enumerates m (Object_values m).
Proof. unfold enumerates. reflexivity. Qed.

(** X6.  Whatever the order in which [Object.values] lists the registry,
    [sortedCategories] is a permutation of the values, as long as the
    registry has entries, holding exactly the stored categories; it is
    ascending in [order]; and it is stable: the categories of one weight
    come in the order [Object.values] listed them. *)
Theorem sortedCategories_spec (categories : gmap string CategoryDefinition.t)
    (values : list CategoryDefinition.t) :
  enumerates categories values ->
  sortedCategories values ≡ₚ values
  /\ length (sortedCategories values) = size categories
  /\ (forall c, c ∈ sortedCategories values <-> stored categories c)
  /\ ascending (sortedCategories values)
  /\ (forall w : Z,
        filter (fun c => CategoryDefinition.order c = w)
               (sortedCategories values)
        = filter (fun c => CategoryDefinition.order c = w) values).
Proof.
  intros H.
  assert (Hp : sortedCategories values ≡ₚ values) by apply Array_sort_perm.
  split; [exact Hp |]. split; [| split; [| split]].
  - rewrite Hp. now apply enumerates_length.
  - intros c. rewrite Hp. now apply enumerates_elem_of.
  - apply sortedCategories_ascending.
  - intros w. apply sortedCategories_weight.
Qed.

Lemma sortedCategories_spec_witness :
  sortedCategories [cat_place; cat_world; cat_stats]
  = [cat_world; cat_place; cat_stats]
  /\ length (sortedCategories [cat_place; cat_world; cat_stats]) = 3%nat
  /\ filter (fun c => CategoryDefinition.order c = 1%Z)
            (sortedCategories [cat_place; cat_world; cat_stats])
     = [cat_place; cat_stats].
Proof.
  assert (He : enumerates three_categories [cat_place; cat_world; cat_stats]).
  { unfold enumerates. vm_compute Object_values.
    apply Permutation_swap. }
  destruct (sortedCategories_spec three_categories
              [cat_place; cat_world; cat_stats] He)
    as (_ & Hlen & _ & _ & Hw).
  split; [reflexivity |]. split; [exact Hlen | exact (Hw 1%Z)].
Defined.

(** ** The states the component reaches *)

Lemma handle_step e st : enabled st e -> step st (handle e st).
Proof.
  destruct e; cbn; intros He;
    try (apply step_other; reflexivity).
  - apply step_saveCategory.
  - apply step_deleteCategory.
  - apply step_select_all.
  - destruct He as [k Hk]. exact (step_select st k cat Hk).
  - apply step_other; unfold saveItem;
      destruct (rejected _ _); reflexivity.
  - apply step_other; destruct confirmed; reflexivity.
Qed.

Lemma runs_reachable st : runs st -> reachable st.
Proof.
  induction 1 as [| st e _ IH He].
  - apply reachable_initial. split; reflexivity.
  - exact (reachable_step _ _ IH (handle_step _ _ He)).
Qed.

Lemma categories_handle e st :
  categories (handle e st) = categories st
  \/ (e = SaveCategory
      /\ rejected (CategoryDefinition.key (categoryForm st))
                  (CategoryDefinition.name (categoryForm st)) = false
      /\ categories (handle e st)
         = <[CategoryDefinition.key (categoryForm st) := categoryForm st]>
             (categories st))
  \/ (exists key, categories (handle e st) = delete key (categories st)).
Proof.
  destruct e; cbn; auto.
  - destruct (rejected (CategoryDefinition.key (categoryForm st))
                       (CategoryDefinition.name (categoryForm st))) eqn:Hr.
    + left. now rewrite saveCategory_rejected.
    + rewrite (saveCategory_accepted _ Hr). cbn.
      destruct (assign_cases (CategoryDefinition.key (categoryForm st))
                  (categoryForm st) (categories st)) as [-> | ->]; auto.
  - destruct confirmed; cbn; eauto.
  - left. unfold saveItem. destruct (rejected _ _); reflexivity.
  - left. destruct confirmed; reflexivity.
Qed.

Lemma itemDefinitions_handle e st :
  itemDefinitions (handle e st) = itemDefinitions st
  \/ (e = SaveItem
      /\ rejected (ItemDefinition.key (itemForm st))
                  (ItemDefinition.name (itemForm st)) = false
      /\ itemDefinitions (handle e st)
         = <[ItemDefinition.key (itemForm st) :=
               ItemDefinition.set_format
                 (Some (generatedFormat (categories st) (itemForm st)))
                 (itemForm st)]>
             (itemDefinitions st))
  \/ (exists key, itemDefinitions (handle e st)
                  = delete key (itemDefinitions st)).
Proof.
  destruct e; cbn; auto.
  - left. unfold saveCategory. destruct (rejected _ _); reflexivity.
  - left. destruct confirmed; reflexivity.
  - destruct (rejected (ItemDefinition.key (itemForm st))
                       (ItemDefinition.name (itemForm st))) eqn:Hr.
    + left. now rewrite saveItem_rejected.
    + rewrite (saveItem_accepted _ Hr). cbn.
      destruct (assign_cases (ItemDefinition.key (itemForm st))
                  (ItemDefinition.set_format
                     (Some (generatedFormat (categories st) (itemForm st)))
                     (itemForm st))
                  (itemDefinitions st)) as [-> | ->]; auto.
  - destruct confirmed; cbn; eauto.
Qed.

Lemma handle_registries_valid e st :
  registries_valid st -> registries_valid (handle e st).
Proof.
  intros [HC HI]. split.
  - intros k c.
    destruct (categories_handle e st) as [-> | [(_ & Hr & ->) | [key ->]]].
    + apply HC.
    + apply rejected_false in Hr as [Hk Hn].
      rewrite lookup_insert. case_decide as Hd.
      * intros [= <-]. subst k. repeat split; assumption.
      * apply HC.
    + intros H. apply lookup_delete_Some in H as [_ H]. now apply HC.
  - intros k d.
    destruct (itemDefinitions_handle e st) as [-> | [(_ & Hr & ->) | [key ->]]].
    + apply HI.
    + apply rejected_false in Hr as [Hk Hn].
      rewrite lookup_insert. case_decide as Hd.
      * intros [= <-]. subst k.
        destruct (itemForm st). cbn in *. repeat split; eauto.
      * apply HI.
    + intros H. apply lookup_delete_Some in H as [_ H]. now apply HI.
Qed.

Lemma runs_valid st : runs st -> registries_valid st.
Proof.
  induction 1 as [| st e _ IH _].
  - split; intros k x; cbn; rewrite lookup_empty; discriminate.
  - now apply handle_registries_valid.
Qed.

(** X7.  In every state the component reaches from its first render,
    each category is stored under its own key, and each item under its
    own; the key and the name of every stored entry hold a character that
    is not white space (so no entry sits at the empty key); and every
    stored item has a format. *)
Theorem runs_registries_valid (st : State) :
  runs st ->
  (forall k c,
      categories st !! k = Some c ->
      CategoryDefinition.key c = k
      /\ Js.trim k <> "" /\ Js.trim (CategoryDefinition.name c) <> "")
  /\ (forall k d,
        itemDefinitions st !! k = Some d ->
        ItemDefinition.key d = k
        /\ Js.trim k <> "" /\ Js.trim (ItemDefinition.name d) <> ""
        /\ is_Some (ItemDefinition.format d))
  /\ categories st !! "" = None
  /\ itemDefinitions st !! "" = None.
Proof.
  intros H. destruct (runs_valid _ H) as [HC HI].
  split; [exact HC |]. split; [exact HI |]. split.
  - destruct (categories st !! "") eqn:E; [| reflexivity].
    destruct (HC _ _ E) as (_ & Hk & _). now destruct Hk.
  - destruct (itemDefinitions st !! "") eqn:E; [| reflexivity].
    destruct (HI _ _ E) as (_ & Hk & _). now destruct Hk.
Qed.

Lemma runs_session_category : runs session_category.
Proof.
  unfold session_category. repeat apply runs_event; try exact I.
  - apply runs_init.
  - exists "ST1". reflexivity.
Defined.

Lemma runs_session_item : runs session_item.
Proof.
  unfold session_item.
  do 3 (apply runs_event; [| exact I]).
  apply runs_session_category.
Defined.

Lemma runs_registries_valid_witness :
  (exists d,
      itemDefinitions session_item !! "天气" = Some d
      /\ ItemDefinition.key d = "天气"
      /\ ItemDefinition.format d = Some "[ST^ST1|天气::{天气}]")
  /\ categories session_item !! "" = None.
Proof.
  destruct (runs_registries_valid session_item runs_session_item)
    as (_ & HI & HC & _).
  split; [| exact HC].
  eexists. split; [reflexivity |]. split; [| reflexivity].
  refine (proj1 (HI "天气" _ _)). reflexivity.
Defined.

(** X8.  In every state the component reaches, [currentCategory] is null
    exactly when no category is selected; when the key [k] is selected,
    it is the category stored at [k], whose own key is [k].  Deleting the
    selected category makes it null. *)
Theorem runs_currentCategory (st : State) :
  runs st ->
  (selectedCategoryKey st = None <-> currentCategory st = None)
  /\ (forall k,
        selectedCategoryKey st = Some k ->
        exists c,
          currentCategory st = Some c
          /\ categories st !! k = Some c
          /\ CategoryDefinition.key c = k)
  /\ (forall k,
        selectedCategoryKey st = Some k ->
        currentCategory (deleteCategory true k st) = None).
Proof.
  intros H.
  destruct (runs_valid _ H) as [HC _].
  destruct (reachable_invariant _ (runs_reachable _ H)) as [_ Hok].
  assert (Hsel : forall k,
             selectedCategoryKey st = Some k ->
             exists c, currentCategory st = Some c
                       /\ categories st !! k = Some c
                       /\ CategoryDefinition.key c = k).
  { intros k Hk. destruct (Hok _ Hk) as [c Hc]. exists c.
    destruct (HC _ _ Hc) as (Hkey & Hf & _).
    apply filled_nonempty, truthy_true in Hf.
    unfold currentCategory. rewrite Hk, Hf. auto. }
  split; [| split].
  - split.
    + intros Hn. unfold currentCategory. now rewrite Hn.
    + intros Hn. destruct (selectedCategoryKey st) as [k |] eqn:E;
        [| reflexivity].
      destruct (Hsel k eq_refl) as (c & Hc & _). congruence.
  - exact Hsel.
  - intros k Hk. unfold currentCategory. cbn. now rewrite decide_True.
Qed.

Lemma runs_currentCategory_witness :
  currentCategory session_item = Some cat_world
  /\ currentCategory (deleteCategory true "ST1" session_item) = None.
Proof.
  destruct (runs_currentCategory session_item runs_session_item)
    as (_ & Hsel & Hdel).
  split.
  - destruct (Hsel "ST1" eq_refl) as (c & Hc & Hl & _).
    rewrite Hc. rewrite <- Hl. reflexivity.
  - apply Hdel. reflexivity.
Defined.

(** X9.  Whatever the order in which [Object.values] lists the item
    registry: with no selection, or the empty string selected,
    [filteredItems] is the whole list; with the key [k] selected it holds
    exactly the stored items whose category is [k], in the order of the
    list.  Deleting the selected category brings the whole list back,
    the items of the deleted category included. *)
Theorem filteredItems_spec (st : State) (items : list ItemDefinition.t) :
  enumerates (itemDefinitions st) items ->
  (selectedCategoryKey st = None \/ selectedCategoryKey st = Some "" ->
   filteredItems (selectedCategoryKey st) items = items)
  /\ (forall k,
        selectedCategoryKey st = Some k -> k <> "" ->
        (forall d,
            d ∈ filteredItems (selectedCategoryKey st) items
            <-> stored (itemDefinitions st) d
                /\ ItemDefinition.category d = k)
        /\ filteredItems (selectedCategoryKey st) items `sublist_of` items)
  /\ (forall k,
        selectedCategoryKey st = Some k ->
        filteredItems (selectedCategoryKey (deleteCategory true k st)) items
        = items
        /\ enumerates (itemDefinitions (deleteCategory true k st)) items).
Proof.
  intros He. split; [| split].
  - intros [-> | ->]; reflexivity.
  - intros k -> Hk. unfold filteredItems.
    apply truthy_true in Hk. rewrite Hk. cbn. split.
    + intros d. rewrite list_elem_of_filter, (enumerates_elem_of _ _ d He).
      tauto.
    + apply sublist_filter.
  - intros k Hk. cbn. rewrite decide_True by exact Hk. split;
      [reflexivity | exact He].
Qed.

Lemma filteredItems_spec_witness :
  filteredItems (selectedCategoryKey session_item)
                (Object_values (itemDefinitions session_item))
  `sublist_of` Object_values (itemDefinitions session_item)
  /\ filteredItems
       (selectedCategoryKey (deleteCategory true "ST1" session_item))
       (Object_values (itemDefinitions session_item))
     = Object_values (itemDefinitions session_item).
Proof.
  destruct (filteredItems_spec session_item
              (Object_values (itemDefinitions session_item))
              (Object_values_enumerates _))
    as (_ & Hsel & Hdel).
  split.
  - apply (Hsel "ST1"); [reflexivity | discriminate].
  - apply (Hdel "ST1"). reflexivity.
Defined.

(** ** Opening a drawer and saving *)

Lemma length_sortedCategories l : length (sortedCategories l) = length l.
Proof. apply Permutation_length, Array_sort_perm. Qed.

(** X10.  A drawer opened for a new entry holds a draft that a save
    rejects: saving at once changes nothing.  The new category draft has
    the number of stored categories as its weight.  The new item draft
    takes the selected category (none when nothing is selected) and one
    part [value]; its format is empty until a key is typed, and with the
    key [K] typed and the category [k] selected it is
    ["[" + scope_token + "^" + k + "|" + K + "::{value}]"]. *)
Theorem save_after_openNew (st : State) :
  saveCategory (openNewCategory st) = openNewCategory st
  /\ saveItem (openNewItem st) = openNewItem st
  /\ CategoryDefinition.order (categoryForm (openNewCategory st))
     = Z.of_nat (size (categories st))
  /\ ItemDefinition.category (itemForm (openNewItem st))
     = default "" (selectedCategoryKey st)
  /\ generatedFormat (categories st) (itemForm (openNewItem st)) = ""
  /\ (forall k K,
        selectedCategoryKey st = Some k -> k <> "" -> K <> "" ->
        generatedFormat (categories (openNewItem st))
                        (retarget k K (itemForm (openNewItem st)))
        = "[" +:+ scopeToken (categories st) k +:+ "^" +:+ k +:+ "|" +:+ K
              +:+ "::{value}]").
Proof.
  repeat apply conj.
  - reflexivity.
  - reflexivity.
  - cbn. rewrite length_sortedCategories.
    now rewrite (enumerates_length _ _ (Object_values_enumerates _)).
  - cbn. destruct (selectedCategoryKey st) as [k |]; [| reflexivity].
    cbn. now destruct k.
  - reflexivity.
  - intros k K Hs Hk HK.
    rewrite generatedFormat_framed by (cbn; assumption).
    reflexivity.
Qed.

Lemma save_after_openNew_witness :
  generatedFormat (categories (openNewItem session_category))
                  (retarget "ST1" "天气" (itemForm (openNewItem session_category)))
  = "[ST^ST1|天气::{value}]".
Proof.
  refine (proj2 (proj2 (proj2 (proj2 (proj2
            (save_after_openNew session_category)))))
            "ST1" "天气" _ _ _); (reflexivity || discriminate).
Defined.

(** X11.  In every state the component reaches, opening a stored category
    for editing and saving it unchanged is accepted and leaves the
    category registry, the item registry and the selection as they were;
    it only closes the drawer. *)
Theorem edit_save_category (st : State) (cat : CategoryDefinition.t) :
  runs st -> stored (categories st) cat ->
  categories (saveCategory (editCategory cat st)) = categories st
  /\ itemDefinitions (saveCategory (editCategory cat st)) = itemDefinitions st
  /\ selectedCategoryKey (saveCategory (editCategory cat st))
     = selectedCategoryKey st
  /\ categoryForm (saveCategory (editCategory cat st)) = cat
  /\ isEditingCategory (saveCategory (editCategory cat st)) = false.
Proof.
  intros H [k Hk].
  destruct (runs_valid _ H) as [HC _].
  destruct (HC _ _ Hk) as (Hkey & Hfk & Hfn). subst k.
  rewrite saveCategory_accepted by (apply rejected_false; cbn; auto).
  cbn. repeat split. now apply assign_id.
Qed.

Lemma edit_save_category_witness :
  categories (saveCategory (editCategory cat_world session_item))
  = categories session_item.
Proof.
  refine (proj1 (edit_save_category session_item cat_world
                   runs_session_item _)).
  exists "ST1". reflexivity.
Defined.

Lemma assign_opt_same {A : Type} (x : option A) : assign_opt x x = x.
Proof. now destruct x. Qed.

Lemma editItem_same item st :
  itemForm st = item -> itemForm (editItem item st) = item.
Proof.
  intros <-. cbn. rewrite copyParts_id, !assign_opt_same.
  now destruct (itemForm st).
Qed.

(** X12.  After an accepted save under a key other than [__proto__],
    opening the entry just stored gives back the draft as the save left
    it, its [format] being the one just generated; the registries are not
    touched by opening it. *)
Theorem edit_after_save_item (st : State) :
  filled (ItemDefinition.key (itemForm st)) ->
  filled (ItemDefinition.name (itemForm st)) ->
  ItemDefinition.key (itemForm st) <> "__proto__" ->
  exists entry,
    itemDefinitions (saveItem st) !! ItemDefinition.key (itemForm st)
    = Some entry
    /\ itemForm (editItem entry (saveItem st)) = entry
    /\ entry
       = ItemDefinition.set_format
           (Some (generatedFormat (categories st) (itemForm st)))
           (itemForm st)
    /\ itemDefinitions (editItem entry (saveItem st))
       = itemDefinitions (saveItem st)
    /\ isEditingItem (editItem entry (saveItem st)) = true.
Proof.
  intros Hk Hn Hp.
  assert (Hr : rejected (ItemDefinition.key (itemForm st))
                        (ItemDefinition.name (itemForm st)) = false)
    by (apply rejected_false; auto).
  eexists. split.
  { rewrite (saveItem_accepted _ Hr). cbn.
    rewrite assign_ordinary by exact Hp. apply lookup_insert_eq. }
  split.
  { apply editItem_same. now rewrite (saveItem_accepted _ Hr). }
  repeat split.
Qed.

Lemma edit_after_save_item_witness :
  exists entry,
    itemDefinitions (saveItem (sample_state cat_world item_hp)) !! "HP"
    = Some entry
    /\ itemForm (editItem entry (saveItem (sample_state cat_world item_hp)))
       = entry.
Proof.
  destruct (edit_after_save_item (sample_state cat_world item_hp))
    as (entry & Hl & Hf & _); [discriminate | discriminate | discriminate |].
  exists entry. split; [exact Hl | exact Hf].
Defined.

(** X13.  [editItem] merges the item into the form: an optional field
    that the item does not have keeps the value the form held before.  So
    after one item with a [ui_type] has been opened, an item without one
    (and with a key other than [__proto__]) that is opened next and saved
    is stored with the first item's [ui_type]. *)
Theorem editItem_keeps_missing_fields (st : State)
    (first second : ItemDefinition.t) :
  is_Some (ItemDefinition.ui_type first) ->
  ItemDefinition.ui_type second = None ->
  filled (ItemDefinition.key second) ->
  filled (ItemDefinition.name second) ->
  ItemDefinition.key second <> "__proto__" ->
  exists entry,
    itemDefinitions (saveItem (editItem second (editItem first st)))
      !! ItemDefinition.key second = Some entry
    /\ ItemDefinition.ui_type entry = ItemDefinition.ui_type first
    /\ ItemDefinition.key entry = ItemDefinition.key second
    /\ ItemDefinition.name entry = ItemDefinition.name second
    /\ ItemDefinition.parts entry = ItemDefinition.parts second.
Proof.
  intros [u Hu] Hnone Hk Hn Hp.
  rewrite saveItem_accepted by (apply rejected_false; cbn; auto).
  cbn. rewrite assign_ordinary by exact Hp.
  eexists. split; [apply lookup_insert_eq |].
  cbn. rewrite Hu, Hnone, copyParts_id. cbn. auto.
Qed.

Lemma editItem_keeps_missing_fields_witness :
  exists entry,
    itemDefinitions
      (saveItem
         (editItem item_hp
            (editItem
               (ItemDefinition.mk "背包" "背包" None "CV" List [] "|" None
                                  (Some "grid") None None None)
               (sample_state cat_world item_weather))))
      !! "HP" = Some entry
    /\ ItemDefinition.ui_type entry = Some "grid".
Proof.
  destruct (editItem_keeps_missing_fields
              (sample_state cat_world item_weather)
              (ItemDefinition.mk "背包" "背包" None "CV" List [] "|" None
                                 (Some "grid") None None None)
              item_hp)
    as (entry & Hl & Hu & _);
    [eexists; reflexivity | reflexivity | discriminate | discriminate
     | discriminate |].
  exists entry. split; [exact Hl | exact Hu].
Defined.

(** ** More on the parts editor *)

Lemma removePart_of_list index (l : list ItemDefinitionPart.t) :
  removePart index (JsArray.of_list l) =
    let len := Z.of_nat (length l) in
    let actualStart :=
      if (index <? 0)%Z then Z.max (len + index) 0 else Z.min index len in
    JsArray.of_list
      (take (Z.to_nat actualStart) l
         ++ drop (Z.to_nat (actualStart + Z.min 1 (len - actualStart))) l)%list.
Proof.
  apply array_eq; [| reflexivity].
  rewrite removePart_elems, array_length_of_list. cbn.
  now rewrite fmap_app, fmap_take, fmap_drop.
Qed.

(** X14.  [addPart] appends one blank part of type string and touches
    nothing else: the length grows by one, the new part is the last, and
    every other position reads as before.  Removing the last part, by the
    index -1 or by its own index, undoes it.  A typed list stays a typed
    list. *)
Theorem addPart_spec (parts : JsArray.t ItemDefinitionPart.t) :
  JsArray.length (addPart parts) = (JsArray.length parts + 1)%Z
  /\ JsArray.get (addPart parts) (JsArray.length parts) = Some blank_part
  /\ (forall i, i <> JsArray.length parts ->
        JsArray.get (addPart parts) i = JsArray.get parts i)
  /\ removePart (-1) (addPart parts) = parts
  /\ removePart (JsArray.length parts) (addPart parts) = parts
  /\ (forall l : list ItemDefinitionPart.t,
        addPart (JsArray.of_list l) = JsArray.of_list (l ++ [blank_part])%list).
Proof.
  pose proof (array_length_nonneg parts) as Hlen.
  assert (Hl : JsArray.length (addPart parts) = (JsArray.length parts + 1)%Z).
  { unfold JsArray.length, addPart, JsArray.push. cbn.
    rewrite length_app. cbn. lia. }
  assert (Hcut : forall n : nat,
             n = length (JsArray.elems parts) ->
             (take n (JsArray.elems parts ++ [Some blank_part])
                ++ drop (S n) (JsArray.elems parts ++ [Some blank_part]))%list
             = JsArray.elems parts).
  { intros n ->. rewrite take_app_length.
    rewrite drop_ge by (rewrite length_app; cbn; lia).
    apply app_nil_r. }
  repeat apply conj.
  - exact Hl.
  - unfold JsArray.get, JsArray.length, addPart, JsArray.push. cbn.
    replace (Z.of_nat (length (JsArray.elems parts)) <? 0)%Z with false
      by (symmetry; apply Z.ltb_ge; lia).
    rewrite Nat2Z.id, lookup_app_r by lia.
    now rewrite Nat.sub_diag.
  - intros i Hi. unfold JsArray.get, addPart, JsArray.push. cbn.
    destruct (i <? 0)%Z eqn:Hneg; [reflexivity |].
    apply Z.ltb_ge in Hneg. unfold JsArray.length in Hi.
    destruct (decide (Z.to_nat i < length (JsArray.elems parts))%nat)
      as [Hlt | Hge].
    + now rewrite lookup_app_l.
    + rewrite (lookup_ge_None_2 (JsArray.elems parts)) by lia.
      rewrite lookup_ge_None_2; [reflexivity |].
      rewrite length_app. cbn. lia.
  - apply array_eq; [| reflexivity].
    rewrite removePart_elems, Hl. cbn zeta.
    replace (-1 <? 0)%Z with true by reflexivity.
    rewrite Z.max_l by lia. rewrite Z.min_l by lia.
    replace (Z.to_nat (JsArray.length parts + 1 + -1 + 1))
      with (S (Z.to_nat (JsArray.length parts + 1 + -1))) by lia.
    apply Hcut. unfold JsArray.length. lia.
  - apply array_eq; [| reflexivity].
    rewrite removePart_elems, Hl. cbn zeta.
    replace (JsArray.length parts <? 0)%Z with false
      by (symmetry; apply Z.ltb_ge; lia).
    rewrite Z.min_l by lia. rewrite Z.min_l by lia.
    replace (Z.to_nat (JsArray.length parts + 1))
      with (S (Z.to_nat (JsArray.length parts))) by lia.
    apply Hcut. unfold JsArray.length. lia.
  - intros l. unfold addPart, JsArray.push, JsArray.of_list. cbn.
    now rewrite fmap_app.
Qed.

Lemma swap_next {A : Type} (l : list A) (i : nat) (a b : A) :
  l !! i = Some a -> l !! S i = Some b ->
  <[S i := a]> (<[i := b]> l) ≡ₚ l.
Proof.
  revert i. induction l as [| x l IH]; intros i Ha Hb; [discriminate |].
  destruct i as [| i]; cbn in *.
  - injection Ha as ->. destruct l as [| y l]; [discriminate |].
    injection Hb as ->. cbn. apply Permutation_swap.
  - apply Permutation_skip. now apply IH.
Qed.

Lemma swap_back {A : Type} (l : list A) (i j : nat) (a b : A) :
  l !! i = Some a -> l !! j = Some b ->
  <[j := b]> (<[i := a]> (<[j := a]> (<[i := b]> l))) = l.
Proof.
  intros Ha Hb. destruct (decide (i = j)) as [-> | Hne].
  - rewrite !list_insert_insert_eq. now apply list_insert_id.
  - rewrite (list_insert_insert_ne _ i j a a) by exact Hne.
    rewrite !list_insert_insert_eq.
    rewrite (list_insert_id l i a Ha). now apply list_insert_id.
Qed.

Lemma movePart_of_list (l : list ItemDefinitionPart.t) (i j : nat) p q
    index direction :
  index = Z.of_nat i -> (index + direction)%Z = Z.of_nat j ->
  l !! i = Some p -> l !! j = Some q ->
  movePart index direction (JsArray.of_list l)
  = JsArray.of_list (<[j := p]> (<[i := q]> l)).
Proof.
  intros Hi Hj Hp Hq.
  assert (Hli : (i < length l)%nat) by (apply lookup_lt_is_Some; eauto).
  assert (Hlj : (j < length l)%nat) by (apply lookup_lt_is_Some; eauto).
  rewrite movePart_in_bounds by (rewrite array_length_of_list; lia).
  rewrite Hj, Hi, !array_get_of_list, Hp, Hq.
  rewrite array_set_of_list by exact Hli.
  rewrite array_set_of_list by (rewrite length_insert; exact Hlj).
  reflexivity.
Qed.

(** X15.  On a typed parts list, with [index] inside the list and
    [direction] -1 or +1, [movePart] yields a typed list again: a
    permutation of the parts, of the same length, so that no part is lost,
    doubled or left undefined.  A second [movePart] with the same
    arguments restores the list, and so does, when the part did move,
    moving it back from its new position. *)
Theorem movePart_typed (l : list ItemDefinitionPart.t)
    (index direction : Z) :
  (0 <= index < Z.of_nat (length l))%Z ->
  direction = (-1)%Z \/ direction = 1%Z ->
  exists l',
    movePart index direction (JsArray.of_list l) = JsArray.of_list l'
    /\ l' ≡ₚ l
    /\ length l' = length l
    /\ movePart index direction (JsArray.of_list l') = JsArray.of_list l
    /\ ((0 <= index + direction < Z.of_nat (length l))%Z ->
        movePart (index + direction) (- direction) (JsArray.of_list l')
        = JsArray.of_list l).
Proof.
  intros Hin Hd.
  destruct (decide (0 <= index + direction < Z.of_nat (length l))%Z)
    as [Hnew | Hout].
  - destruct (lookup_lt_is_Some_2 l (Z.to_nat index)) as [p Hp]; [lia |].
    destruct (lookup_lt_is_Some_2 l (Z.to_nat (index + direction)))
      as [q Hq]; [lia |].
    set (i := Z.to_nat index) in *.
    set (j := Z.to_nat (index + direction)) in *.
    assert (Hi : index = Z.of_nat i) by lia.
    assert (Hj : (index + direction)%Z = Z.of_nat j) by lia.
    exists (<[j := p]> (<[i := q]> l)).
    assert (Hij : i <> j) by lia.
    assert (Hp' : <[j := p]> (<[i := q]> l) !! j = Some p).
    { apply list_lookup_insert_eq. rewrite length_insert. lia. }
    assert (Hq' : <[j := p]> (<[i := q]> l) !! i = Some q).
    { rewrite list_lookup_insert_ne by congruence.
      apply list_lookup_insert_eq. lia. }
    split; [exact (movePart_of_list l i j p q _ _ Hi Hj Hp Hq) |].
    split; [| split; [| split]].
    + destruct Hd as [-> | ->].
      * assert (i = S j) as -> by lia.
        rewrite list_insert_insert_ne by lia. now apply swap_next.
      * assert (j = S i) as -> by lia. now apply swap_next.
    + now rewrite !length_insert.
    + rewrite (movePart_of_list _ i j q p _ _ Hi Hj Hq' Hp').
      f_equal. now apply swap_back.
    + intros _.
      rewrite (movePart_of_list _ j i p q); [| exact Hj | lia | exact Hp' | exact Hq'].
      f_equal. rewrite list_insert_insert_eq.
      rewrite (list_insert_insert_ne l j i q q) by congruence.
      rewrite list_insert_insert_eq, (list_insert_id l j q Hq).
      now apply list_insert_id.
  - exists l.
    assert (Hsame : movePart index direction (JsArray.of_list l)
                    = JsArray.of_list l).
    { apply movePart_out_of_bounds. rewrite array_length_of_list. lia. }
    split; [exact Hsame |]. split; [reflexivity |].
    split; [reflexivity |]. split; [exact Hsame |].
    intros Hnew. contradiction.
Qed.

Lemma addPart_spec_witness :
  JsArray.get (addPart three_parts) 1 = Some (sample_part "b")
  /\ JsArray.get (addPart three_parts) 3 = Some blank_part
  /\ removePart (-1) (addPart three_parts) = three_parts.
Proof.
  destruct (addPart_spec three_parts) as (_ & Hnew & Hold & Hundo & _).
  split; [| split; [exact Hnew | exact Hundo]].
  rewrite (Hold 1%Z); [reflexivity | discriminate].
Defined.

Lemma movePart_typed_witness :
  exists l',
    movePart 1 (-1) three_parts = JsArray.of_list l'
    /\ l' ≡ₚ [sample_part "a"; sample_part "b"; sample_part "c"]
    /\ movePart 0 1 (JsArray.of_list l') = three_parts.
Proof.
  destruct (movePart_typed
              [sample_part "a"; sample_part "b"; sample_part "c"] 1 (-1))
    as (l' & Hm & Hp & _ & _ & Hback);
    [cbn; lia | left; reflexivity |].
  exists l'. split; [exact Hm |]. split; [exact Hp |].
  apply Hback. cbn. lia.
Defined.

(** X16.  [movePart] checks the target position only.  With [index] just
    outside the array and the target inside it, a part is overwritten by
    [undefined]: [movePart length (-1)] makes the array one longer, its
    last part moving to the new position and [undefined] taking its
    place; [movePart (-1) 1] puts [undefined] in the first position and
    keeps the first part only as the property [-1] of the array. *)
Theorem movePart_unchecked_index (l : list ItemDefinitionPart.t)
    (p : ItemDefinitionPart.t) :
  JsArray.elems
    (movePart (Z.of_nat (length l) + 1) (-1) (JsArray.of_list (l ++ [p])%list))
  = ((Some <$> l) ++ [None; Some p])%list
  /\ JsArray.elems (movePart (-1) 1 (JsArray.of_list (p :: l)))
     = None :: (Some <$> l)
  /\ JsArray.get (movePart (-1) 1 (JsArray.of_list (p :: l))) (-1) = Some p
  /\ (forall l' : list ItemDefinitionPart.t,
        movePart (Z.of_nat (length l) + 1) (-1)
                 (JsArray.of_list (l ++ [p])%list)
        <> JsArray.of_list l'
        /\ movePart (-1) 1 (JsArray.of_list (p :: l)) <> JsArray.of_list l').
Proof.
  assert (H1 : JsArray.elems
                 (movePart (Z.of_nat (length l) + 1) (-1)
                           (JsArray.of_list (l ++ [p])%list))
               = ((Some <$> l) ++ [None; Some p])%list).
  { rewrite movePart_in_bounds
      by (rewrite array_length_of_list, length_app; cbn; lia).
    replace (Z.of_nat (length l) + 1 + -1)%Z with (Z.of_nat (length l))
      by lia.
    replace (Z.of_nat (length l) + 1)%Z with (Z.of_nat (S (length l)))
      by lia.
    rewrite !array_get_of_list.
    rewrite lookup_app_r by lia. rewrite Nat.sub_diag. cbn [lookup list_lookup].
    rewrite lookup_ge_None_2 by (rewrite length_app; cbn; lia).
    unfold JsArray.set at 2.
    replace (Z.of_nat (S (length l)) <? 0)%Z with false
      by (symmetry; apply Z.ltb_ge; lia).
    rewrite array_length_of_list, length_app. cbn [length].
    replace (Z.of_nat (S (length l)) <? Z.of_nat (length l + 1))%Z
      with false by (symmetry; apply Z.ltb_ge; lia).
    replace (Z.to_nat (Z.of_nat (S (length l)) - Z.of_nat (length l + 1)))
      with 0%nat by lia.
    cbn [replicate app JsArray.elems JsArray.of_list JsArray.props].
    unfold JsArray.set, JsArray.length. cbn [JsArray.elems JsArray.props].
    replace (Z.of_nat (length l) <? 0)%Z with false
      by (symmetry; apply Z.ltb_ge; lia).
    rewrite length_app, length_fmap, length_app. cbn [length].
    replace (Z.of_nat (length l) <? Z.of_nat (length l + 1 + 1))%Z with true
      by (symmetry; apply Z.ltb_lt; lia).
    cbn [JsArray.elems]. rewrite Nat2Z.id, fmap_app, <- app_assoc.
    rewrite <- (length_fmap Some l) at 1.
    rewrite insert_app_r_alt by lia. rewrite Nat.sub_diag. reflexivity. }
  assert (H2 : movePart (-1) 1 (JsArray.of_list (p :: l))
               = JsArray.mk (None :: (Some <$> l)) (<[(-1)%Z := Some p]> ∅)).
  { rewrite movePart_in_bounds
      by (rewrite array_length_of_list; cbn [length]; lia).
    reflexivity. }
  split; [exact H1 |]. split; [now rewrite H2 |]. split.
  { rewrite H2. unfold JsArray.get. cbn. now rewrite lookup_insert_eq. }
  intros l'. split.
  - intros He. apply (f_equal JsArray.elems) in He. rewrite H1 in He.
    cbn in He. apply (f_equal (fun x => x !! length l)) in He.
    rewrite lookup_app_r in He by (rewrite length_fmap; lia).
    rewrite length_fmap, Nat.sub_diag, list_lookup_fmap in He. cbn in He.
    destruct (l' !! length l); discriminate.
  - rewrite H2. intros He. apply (f_equal JsArray.elems) in He. cbn in He.
    destruct l'; discriminate.
Qed.

(** X17.  On a typed parts list [removePart] yields a typed list for
    every integer index: a sublist of the parts, one shorter when the list
    is not empty and the index is below its length, and the same list
    otherwise. *)
Theorem removePart_typed (l : list ItemDefinitionPart.t) (index : Z) :
  exists l',
    removePart index (JsArray.of_list l) = JsArray.of_list l'
    /\ l' `sublist_of` l
    /\ (l <> [] -> (index < Z.of_nat (length l))%Z ->
        S (length l') = length l)
    /\ (l = [] \/ (Z.of_nat (length l) <= index)%Z -> l' = l).
Proof.
  rewrite removePart_of_list. cbn zeta.
  set (len := Z.of_nat (length l)).
  set (actualStart :=
         if (index <? 0)%Z then Z.max (len + index) 0 else Z.min index len).
  assert (Hs : (0 <= actualStart <= len)%Z).
  { unfold actualStart. destruct (index <? 0)%Z eqn:E; lia. }
  eexists. split; [reflexivity |]. split; [| split].
  - rewrite <- (take_drop (Z.to_nat actualStart) l) at 3.
    apply sublist_app; [reflexivity |].
    replace (Z.to_nat (actualStart + Z.min 1 (len - actualStart)))
      with (Z.to_nat actualStart + Z.to_nat (Z.min 1 (len - actualStart)))%nat
      by lia.
    rewrite <- drop_drop. apply sublist_drop.
  - intros Hne Hlt.
    assert (Hpos : (0 < len)%Z).
    { unfold len. destruct l; [congruence | cbn; lia]. }
    assert (Hlt' : (actualStart < len)%Z).
    { unfold actualStart. destruct (index <? 0)%Z eqn:E; [| lia].
      apply Z.ltb_lt in E. lia. }
    rewrite length_app, length_take, length_drop. lia.
  - intros Hor.
    assert (He : (Z.min 1 (len - actualStart) = 0)%Z).
    { destruct Hor as [-> | Hge]; [cbn in *; lia |].
      unfold actualStart. destruct (index <? 0)%Z eqn:E.
      - apply Z.ltb_lt in E. lia.
      - lia. }
    rewrite He, Z.add_0_r. apply take_drop.
Qed.

Lemma removePart_typed_witness :
  exists l',
    removePart 1 three_parts = JsArray.of_list l'
    /\ S (length l') = 3%nat.
Proof.
  destruct (removePart_typed
              [sample_part "a"; sample_part "b"; sample_part "c"] 1)
    as (l' & Hr & _ & Hlen & _).
  exists l'. split; [exact Hr |].
  apply Hlen; [discriminate | cbn; lia].
Defined.

(** ** Keys *)

(** X18.  A save never adds more than one entry.  Under a key that is
    already stored, an accepted item save replaces the entry, whatever
    the category of the entry that was there, and the number of stored
    items stays the same; under a new key other than [__proto__] the
    number grows by one, and under the new key [__proto__] the registry
    is left as it was.  The entries at other keys are not touched. *)
Theorem saveItem_same_key (st : State) :
  filled (ItemDefinition.key (itemForm st)) ->
  filled (ItemDefinition.name (itemForm st)) ->
  (forall old,
      itemDefinitions st !! ItemDefinition.key (itemForm st) = Some old ->
      size (itemDefinitions (saveItem st)) = size (itemDefinitions st)
      /\ exists entry,
          itemDefinitions (saveItem st) !! ItemDefinition.key (itemForm st)
          = Some entry
          /\ ItemDefinition.category entry
             = ItemDefinition.category (itemForm st)
          /\ ItemDefinition.name entry = ItemDefinition.name (itemForm st)
          /\ ItemDefinition.parts entry = ItemDefinition.parts (itemForm st))
  /\ (itemDefinitions st !! ItemDefinition.key (itemForm st) = None ->
      ItemDefinition.key (itemForm st) <> "__proto__" ->
      size (itemDefinitions (saveItem st)) = S (size (itemDefinitions st)))
  /\ (itemDefinitions st !! ItemDefinition.key (itemForm st) = None ->
      ItemDefinition.key (itemForm st) = "__proto__" ->
      itemDefinitions (saveItem st) = itemDefinitions st)
  /\ (forall k, k <> ItemDefinition.key (itemForm st) ->
        itemDefinitions (saveItem st) !! k = itemDefinitions st !! k).
Proof.
  intros Hk Hn.
  assert (Hr : rejected (ItemDefinition.key (itemForm st))
                        (ItemDefinition.name (itemForm st)) = false)
    by (apply rejected_false; auto).
  rewrite (saveItem_accepted _ Hr). cbn. split; [| split; [| split]].
  - intros old Hold. rewrite (assign_own _ _ old) by exact Hold. split.
    + apply map_size_insert_Some. eauto.
    + eexists. split; [apply lookup_insert_eq |].
      destruct (itemForm st). cbn. auto.
  - intros Hnone Hp. rewrite assign_ordinary by exact Hp.
    now apply map_size_insert_None.
  - intros Hnone Hp. rewrite Hp in *. now apply assign_proto.
  - intros k Hne. apply lookup_assign_ne. congruence.
Qed.

Lemma saveItem_same_key_witness :
  (size (itemDefinitions
           (saveItem (with_itemForm (retarget "CV" "天气" item_hp)
                                    session_item)))
   = 1%nat
   /\ exists entry,
       itemDefinitions
         (saveItem (with_itemForm (retarget "CV" "天气" item_hp) session_item))
         !! "天气" = Some entry
       /\ ItemDefinition.category entry = "CV")
  /\ size (itemDefinitions
             (saveItem (with_itemForm (retarget "CV" "HP" item_hp)
                                      session_item)))
     = 2%nat
  /\ itemDefinitions
       (saveItem (with_itemForm (retarget "CV" "__proto__" item_hp)
                                session_item))
     = itemDefinitions session_item.
Proof.
  split; [| split].
  - destruct (saveItem_same_key
                (with_itemForm (retarget "CV" "天气" item_hp) session_item))
      as (Hold & _); [discriminate | discriminate |].
    destruct (Hold (ItemDefinition.set_format
                      (Some "[ST^ST1|天气::{天气}]") item_weather))
      as (Hsize & entry & Hl & Hc & _); [reflexivity |].
    split; [rewrite Hsize; reflexivity |].
    exists entry. split; [exact Hl | exact Hc].
  - destruct (saveItem_same_key
                (with_itemForm (retarget "CV" "HP" item_hp) session_item))
      as (_ & Hnew & _); [discriminate | discriminate |].
    rewrite Hnew; [reflexivity | reflexivity | discriminate].
  - destruct (saveItem_same_key
                (with_itemForm (retarget "CV" "__proto__" item_hp)
                               session_item))
      as (_ & _ & Hproto & _); [discriminate | discriminate |].
    apply Hproto; reflexivity.
Defined.

(** X19.  Keys are not renamed.  When a stored entry is opened, another
    key is typed over its key and the draft is saved, the old entry stays
    where it was, unchanged, and, the new key not being [__proto__], the
    entry is stored a second time under the new key.  This holds for
    categories and, with the format generated anew for the new key, for
    items. *)
Theorem rename_keeps_old_entry (st : State) :
  (forall k k' cat,
      categories st !! k = Some cat ->
      k' <> k -> filled k' -> filled (CategoryDefinition.name cat) ->
      categories
        (saveCategory (with_categoryForm (rekey k' cat) (editCategory cat st)))
        !! k = Some cat
      /\ (k' <> "__proto__" ->
          categories
            (saveCategory
               (with_categoryForm (rekey k' cat) (editCategory cat st)))
            !! k' = Some (rekey k' cat)))
  /\ (forall k k' item,
        itemDefinitions st !! k = Some item ->
        k' <> k -> filled k' -> filled (ItemDefinition.name item) ->
        itemDefinitions
          (saveItem
             (with_itemForm
                (retarget (ItemDefinition.category item) k'
                          (itemForm (editItem item st)))
                (editItem item st)))
          !! k = Some item
        /\ (k' <> "__proto__" ->
            exists entry,
              itemDefinitions
                (saveItem
                   (with_itemForm
                      (retarget (ItemDefinition.category item) k'
                                (itemForm (editItem item st)))
                      (editItem item st)))
                !! k' = Some entry
              /\ ItemDefinition.key entry = k'
              /\ ItemDefinition.name entry = ItemDefinition.name item
              /\ ItemDefinition.parts entry = ItemDefinition.parts item)).
Proof.
  split.
  - intros k k' cat Hk Hne Hfk Hfn.
    rewrite saveCategory_accepted by (apply rejected_false; cbn; auto).
    cbn. split.
    + rewrite lookup_assign_ne by exact Hne. exact Hk.
    + intros Hp. rewrite assign_ordinary by exact Hp.
      apply lookup_insert_eq.
  - intros k k' item Hk Hne Hfk Hfn.
    rewrite saveItem_accepted by (apply rejected_false; cbn; auto).
    cbn. split.
    + rewrite lookup_assign_ne by exact Hne. exact Hk.
    + intros Hp. rewrite assign_ordinary by exact Hp.
      eexists. split; [apply lookup_insert_eq |].
      cbn. rewrite copyParts_id. auto.
Qed.

Lemma rename_keeps_old_entry_witness :
  categories
    (saveCategory
       (with_categoryForm (rekey "世界" cat_world)
                          (editCategory cat_world session_item)))
    !! "ST1" = Some cat_world
  /\ categories
       (saveCategory
          (with_categoryForm (rekey "世界" cat_world)
                             (editCategory cat_world session_item)))
       !! "世界" = Some (rekey "世界" cat_world).
Proof.
  destruct (proj1 (rename_keeps_old_entry session_item)
              "ST1" "世界" cat_world)
    as (Hold & Hnew); [reflexivity | discriminate | discriminate
                       | discriminate |].
  split; [exact Hold | apply Hnew; discriminate].
Defined.

Lemma assign_no_proto {A : Type} (k : string) (v : A) (o : gmap string A) :
  o !! "__proto__" = None -> assign k v o !! "__proto__" = None.
Proof.
  intros H. unfold assign. destruct (o !! k) eqn:E.
  - rewrite lookup_insert_ne; [exact H | congruence].
  - case_decide as Hk; [exact H |]. now rewrite lookup_insert_ne.
Qed.

Lemma handle_no_proto e st :
  categories st !! "__proto__" = None
  /\ itemDefinitions st !! "__proto__" = None ->
  categories (handle e st) !! "__proto__" = None
  /\ itemDefinitions (handle e st) !! "__proto__" = None.
Proof.
  intros [HC HI].
  destruct e; cbn; try (split; assumption).
  - unfold saveCategory. destruct (rejected _ _); cbn; [auto |].
    split; [now apply assign_no_proto | exact HI].
  - destruct confirmed; cbn; [| auto].
    split; [| exact HI]. apply lookup_delete_None. auto.
  - unfold saveItem. destruct (rejected _ _); cbn; [auto |].
    split; [exact HC | now apply assign_no_proto].
  - destruct confirmed; cbn; [| auto].
    split; [exact HC |]. apply lookup_delete_None. auto.
Qed.

Lemma runs_no_proto st :
  runs st ->
  categories st !! "__proto__" = None
  /\ itemDefinitions st !! "__proto__" = None.
Proof.
  induction 1 as [| st e _ IH _].
  - split; apply lookup_empty.
  - now apply handle_no_proto.
Qed.

(** X20.  A save under the key [__proto__] is accepted like any other (the
    drawer closes, and the item draft gets its format), but when the
    registry has no own property of that name it stores no entry: the
    registry is left as it was.  So in every state the component reaches
    neither registry has an entry at [__proto__], such a save never adds
    one, and [sortedCategories] never lists a category with that key. *)
Theorem save_at_proto_key (st : State) :
  (CategoryDefinition.key (categoryForm st) = "__proto__" ->
   filled (CategoryDefinition.name (categoryForm st)) ->
   categories st !! "__proto__" = None ->
   categories (saveCategory st) = categories st
   /\ itemDefinitions (saveCategory st) = itemDefinitions st
   /\ isEditingCategory (saveCategory st) = false)
  /\ (ItemDefinition.key (itemForm st) = "__proto__" ->
      filled (ItemDefinition.name (itemForm st)) ->
      itemDefinitions st !! "__proto__" = None ->
      itemDefinitions (saveItem st) = itemDefinitions st
      /\ categories (saveItem st) = categories st
      /\ isEditingItem (saveItem st) = false
      /\ ItemDefinition.format (itemForm (saveItem st))
         = Some (generatedFormat (categories st) (itemForm st)))
  /\ (runs st ->
      categories st !! "__proto__" = None
      /\ itemDefinitions st !! "__proto__" = None
      /\ (CategoryDefinition.key (categoryForm st) = "__proto__" ->
          categories (saveCategory st) = categories st)
      /\ (ItemDefinition.key (itemForm st) = "__proto__" ->
          itemDefinitions (saveItem st) = itemDefinitions st)
      /\ (forall values c,
            enumerates (categories st) values ->
            c ∈ sortedCategories values ->
            CategoryDefinition.key c <> "__proto__")).
Proof.
  assert (Hf : filled "__proto__") by discriminate.
  assert (HC : CategoryDefinition.key (categoryForm st) = "__proto__" ->
               categories st !! "__proto__" = None ->
               categories (saveCategory st) = categories st).
  { intros Hk Hnone. destruct (saveCategory_cases st) as [_ [H | H]];
      [exact H |].
    unfold saveCategory in *.
    destruct (rejected _ _); [reflexivity |]. cbn in *.
    rewrite Hk. now apply assign_proto. }
  assert (HI : ItemDefinition.key (itemForm st) = "__proto__" ->
               itemDefinitions st !! "__proto__" = None ->
               itemDefinitions (saveItem st) = itemDefinitions st).
  { intros Hk Hnone.
    destruct (rejected (ItemDefinition.key (itemForm st))
                       (ItemDefinition.name (itemForm st))) eqn:Hr.
    - now rewrite saveItem_rejected.
    - rewrite (saveItem_accepted _ Hr). cbn. rewrite Hk.
      now apply assign_proto. }
  split; [| split].
  - intros Hk Hn Hnone. split; [now apply HC |].
    rewrite saveCategory_accepted
      by (apply rejected_false; rewrite Hk; auto).
    auto.
  - intros Hk Hn Hnone. split; [now apply HI |].
    rewrite saveItem_accepted
      by (apply rejected_false; rewrite Hk; auto).
    cbn. repeat split.
  - intros Hruns. destruct (runs_no_proto _ Hruns) as [HnC HnI].
    split; [exact HnC |]. split; [exact HnI |].
    split; [auto |]. split; [auto |].
    intros values c He Hc Hkey.
    assert (Hp : sortedCategories values ≡ₚ values) by apply Array_sort_perm.
    rewrite Hp in Hc.
    apply (enumerates_elem_of _ _ c He) in Hc as [k Hk].
    destruct (runs_valid _ Hruns) as [Hvalid _].
    destruct (Hvalid _ _ Hk) as (Hkk & _). congruence.
Qed.

Lemma runs_proto_draft : runs (handle (InputCategory category_proto_key) init).
Proof. apply runs_event; [apply runs_init | exact I]. Defined.

Lemma save_at_proto_key_witness :
  categories (saveCategory (handle (InputCategory category_proto_key) init))
  = ∅
  /\ isEditingCategory
       (saveCategory (handle (InputCategory category_proto_key) init))
     = false
  /\ sortedCategories
       (Object_values
          (categories
             (saveCategory (handle (InputCategory category_proto_key) init))))
     = [].
Proof.
  destruct (save_at_proto_key (handle (InputCategory category_proto_key) init))
    as (Hsave & _ & Hruns).
  destruct Hsave as (Hc & _ & Hd);
    [reflexivity | discriminate | reflexivity |].
  destruct (Hruns runs_proto_draft) as (_ & _ & Hc' & _).
  split; [rewrite Hc'; reflexivity |]. split; [exact Hd |].
  rewrite Hc. reflexivity.
Defined.
